(** * WorkingMinecraftReader (parse_mc.py): block lookup through a two-level cache

    A shallow embedding of the reader class of [parse_mc.py]: coordinate
    decomposition, the region and chunk caches, [get_block] with its
    catch-all fallback, [get_multiple_blocks] and [scan_area].

    Python integers are unbounded, so they are [Z].  Dictionaries keyed by
    tuples of integers are [gmap]s.  The anvil library and the file system
    are outside the program: they are a record of operations over an
    arbitrary external world [W], each of which either returns or raises.
    Every call that reaches the library is appended to a ghost trace, so that
    statements about how often the decoder is consulted can be made.
    Console output ([print]) affects neither results nor caches and is left
    out. *)

From stdpp Require Import gmap strings list fin_maps pretty sorting.
From Stdlib Require Import ZArith Lia Ascii.

Local Open Scope Z_scope.

(** ** Python builtins used by the reader *)

Module Py.

(** [range(lo, hi)]: the integers [lo <= i < hi], ascending; empty when
    [hi <= lo]. *)
Definition range (lo hi : Z) : list Z := seqZ lo (hi - lo).

(** [str.startswith("/")] and [str.endswith("/")]. *)
Definition startswith_sep (s : string) : bool :=
  match s with
  | String "/"%char _ => true
  | _ => false
  end.

Fixpoint endswith_sep (s : string) : bool :=
  match s with
  | EmptyString => false
  | String "/"%char EmptyString => true
  | String _ rest => endswith_sep rest
  end.

(** [os.path.join(a, b)] with two arguments (posixpath). *)
Definition os_path_join (a b : string) : string :=
  if startswith_sep b then b
  else if (match a with EmptyString => true | _ => false end) || endswith_sep a
       then a +:+ b
       else a +:+ "/" +:+ b.

(** [f"{n}"] for an integer: decimal digits, a leading minus sign when
    negative. *)
Definition str_of_int (n : Z) : string := pretty n.

End Py.

(** ** Outcomes of Python calls *)

(** Exceptions: the one the reader raises itself, and whatever the library
    raises (all instances of Python's [Exception]). *)
Inductive exn (X : Type) : Type :=
  | FileNotFoundError (msg : string)
  | LibraryError (e : X).
Arguments FileNotFoundError {X} msg.
Arguments LibraryError {X} e.

Inductive outcome (X A : Type) : Type :=
  | Returned (a : A)
  | Raised (e : exn X).
Arguments Returned {X A} a.
Arguments Raised {X A} e.

(** ** The coordinate decomposer (lines 39-44 and 67-77 of parse_mc.py) *)

Definition chunk_of (x : Z) : Z := Z.shiftr x 4.       (* x >> 4 *)
Definition block_of (x : Z) : Z := Z.land x 15.        (* x & 15 *)
Definition region_of (c : Z) : Z := c `div` 32.        (* c // 32 *)
Definition slot_of (c : Z) : Z := c `mod` 32.          (* c % 32 *)

(** The six spellings of air filtered out by [scan_area]. *)
Definition air_blocks : gset string :=
  {[ "minecraft:air"; "minecraft:cave_air"; "minecraft:void_air";
     "air"; "cave_air"; "void_air" ]}.

Section Reader.

(** [W]: state of the world outside the process (files on disk);
    [Region], [Chunk], [Block]: the library's objects; [X]: its
    exceptions. *)
Context {W Region Chunk Block X : Type}.

(** The external collaborator. *)
Record Env := {
  os_path_exists : string -> W -> bool;
  from_file : string -> W -> outcome X Region * W;        (* anvil.Region.from_file *)
  region_get_chunk : Region -> Z -> Z -> W -> outcome X Chunk * W;  (* region.get_chunk *)
  chunk_get_block : Chunk -> Z -> Z -> Z -> W -> outcome X Block * W; (* chunk.get_block *)
  block_id : Block -> string                               (* block.id *)
}.

Variable E : Env.

(** Calls into the library, as recorded in the trace. *)
Inductive event :=
  | EvFromFile (path : string)
  | EvGetChunk (region : Region) (lx lz : Z)
  | EvGetBlock (chunk : Chunk) (bx y bz : Z).

(** The reader object together with the world it runs in. *)
Record State := mkState {
  world_directory : string;
  region_cache : gmap (Z * Z) Region;
  chunk_cache : gmap (Z * Z) Chunk;
  world : W;
  trace : list event
}.

Definition set_region_cache (f : gmap (Z * Z) Region -> gmap (Z * Z) Region)
    (s : State) : State :=
  mkState (world_directory s) (f (region_cache s)) (chunk_cache s)
          (world s) (trace s).

Definition set_chunk_cache (f : gmap (Z * Z) Chunk -> gmap (Z * Z) Chunk)
    (s : State) : State :=
  mkState (world_directory s) (region_cache s) (f (chunk_cache s))
          (world s) (trace s).

Definition set_world (w : W) (s : State) : State :=
  mkState (world_directory s) (region_cache s) (chunk_cache s) w (trace s).

(** *** The monad of reader methods: state plus exceptions *)

Definition M (A : Type) : Type := State -> outcome X A * State.

Definition ret {A} (a : A) : M A := fun s => (Returned a, s).

Definition bind {A B} (m : M A) (k : A -> M B) : M B :=
  fun s =>
    match m s with
    | (Returned a, s') => k a s'
    | (Raised e, s') => (Raised e, s')
    end.

(** [try: body except Exception as e: handler e]. *)
Definition try_except {A} (body : M A) (handler : exn X -> M A) : M A :=
  fun s =>
    match body s with
    | (Returned a, s') => (Returned a, s')
    | (Raised e, s') => handler e s'
    end.

Definition gets {A} (f : State -> A) : M A := fun s => (Returned (f s), s).
Definition modify (f : State -> State) : M unit := fun s => (Returned tt, f s).

(** A library call: run it on the current world, keep the new world, log
    the event. *)
Definition call {A} (ev : event) (op : W -> outcome X A * W) : M A :=
  fun s =>
    let (o, w') := op (world s) in
    (o, mkState (world_directory s) (region_cache s) (chunk_cache s)
                w' (trace s ++ [ev])).

Notation "x <- m ;; k" := (bind m (fun x => k))
  (at level 100, m at next level, right associativity, only parsing).

(** [for a in l: acc = body acc a], the accumulator being the local
    dictionary the loops fill. *)
Fixpoint for_each {A B} (l : list A) (acc : B) (body : B -> A -> M B) : M B :=
  match l with
  | [] => ret acc
  | a :: l' => acc' <- body acc a ;; for_each l' acc' body
  end.

(** *** __init__ (lines 11-25) *)

Definition init (world_path : string) (w : W) : outcome X State :=
  let world_directory := Py.os_path_join world_path "region" in
  if os_path_exists E world_directory w
  then Returned (mkState world_directory ∅ ∅ w [])
  else Raised (FileNotFoundError
                 ("Region folder not found at " +:+ world_directory)).

(** *** _get_region (lines 85-103) *)

Definition region_file (dir : string) (region_x region_z : Z) : string :=
  Py.os_path_join dir
    ("r." +:+ Py.str_of_int region_x +:+ "." +:+ Py.str_of_int region_z +:+ ".mca").

Definition _get_region (region_x region_z : Z) : M (option Region) :=
  cached <- gets (fun s => region_cache s !! (region_x, region_z)) ;;
  match cached with
  | Some region => ret (Some region)
  | None =>
      path <- gets (fun s => region_file (world_directory s) region_x region_z) ;;
      try_except
        (region <- call (EvFromFile path) (from_file E path) ;;
         _ <- modify (set_region_cache <[(region_x, region_z) := region]>) ;;
         ret (Some region))
        (fun e => ret None)
  end.

(** *** _get_chunk (lines 59-83) *)

Definition _get_chunk (chunk_x chunk_z : Z) : M (option Chunk) :=
  cached <- gets (fun s => chunk_cache s !! (chunk_x, chunk_z)) ;;
  match cached with
  | Some chunk => ret (Some chunk)
  | None =>
      let region_x := region_of chunk_x in
      let region_z := region_of chunk_z in
      region <- _get_region region_x region_z ;;
      match region with
      | None => ret None
      | Some region =>
          try_except
            (chunk <- call (EvGetChunk region (slot_of chunk_x) (slot_of chunk_z))
                       (region_get_chunk E region (slot_of chunk_x) (slot_of chunk_z)) ;;
             _ <- modify (set_chunk_cache <[(chunk_x, chunk_z) := chunk]>) ;;
             ret (Some chunk))
            (fun e => ret None)
      end
  end.

(** *** get_block (lines 27-57) *)

Definition get_block (x y z : Z) : M string :=
  try_except
    (let chunk_x := chunk_of x in
     let chunk_z := chunk_of z in
     let block_x := block_of x in
     let block_z := block_of z in
     chunk <- _get_chunk chunk_x chunk_z ;;
     match chunk with
     | None => ret "minecraft:air"
     | Some chunk =>
         block <- call (EvGetBlock chunk block_x y block_z)
                    (chunk_get_block E chunk block_x y block_z) ;;
         ret (block_id E block)
     end)
    (fun e => ret "minecraft:air").

(** *** get_multiple_blocks (lines 105-120) *)

Definition get_multiple_blocks (coordinates : list (Z * Z * Z))
    : M (gmap (Z * Z * Z) string) :=
  for_each coordinates ∅ (fun results '(x, y, z) =>
    block <- get_block x y z ;;
    ret (<[(x, y, z) := block]> results)).

(** *** scan_area (lines 133-164) *)

Definition scan_area (x1 y1 z1 x2 y2 z2 : Z) : M (gmap (Z * Z * Z) string) :=
  for_each (Py.range (Z.min x1 x2) (Z.max x1 x2 + 1)) ∅ (fun blocks x =>
    for_each (Py.range (Z.min y1 y2) (Z.max y1 y2 + 1)) blocks (fun blocks y =>
      for_each (Py.range (Z.min z1 z2) (Z.max z1 z2 + 1)) blocks (fun blocks z =>
        block <- get_block x y z ;;
        if bool_decide (block ∉ air_blocks)
        then ret (<[(x, y, z) := block]> blocks)
        else ret blocks))).

(** *** Sessions *)

(** One step of a reader session: a call of any method, or a change of the
    world outside the process between two calls. *)
Inductive step (s : State) : State -> Prop :=
  | step_get_block x y z : step s (get_block x y z s).2
  | step_get_chunk chunk_x chunk_z : step s (_get_chunk chunk_x chunk_z s).2
  | step_get_region region_x region_z : step s (_get_region region_x region_z s).2
  | step_get_multiple_blocks coordinates :
      step s (get_multiple_blocks coordinates s).2
  | step_scan_area x1 y1 z1 x2 y2 z2 : step s (scan_area x1 y1 z1 x2 y2 z2 s).2
  | step_world w : step s (set_world w s).

(** The states of a session that starts with a successful construction. *)
Definition reachable (s : State) : Prop :=
  exists world_path w s0, init world_path w = Returned s0 /\ rtc step s0 s.

(** [s'] still holds every cache entry of [s], unchanged, for the same
    directory, and its trace continues that of [s]. *)
Definition extends (s s' : State) : Prop :=
  world_directory s' = world_directory s /\
  region_cache s ⊆ region_cache s' /\
  chunk_cache s ⊆ chunk_cache s' /\
  trace s `prefix_of` trace s'.

(** A method keeps a relation between the state it starts in and the
    state it ends in. *)
Definition keeps (R : State -> State -> Prop) {A} (m : M A) : Prop :=
  forall s, R s (m s).2.

(** The cache invariant: a cached chunk lies in a cached region. *)
Definition chunk_in_region (s : State) : Prop :=
  forall chunk_x chunk_z,
    is_Some (chunk_cache s !! (chunk_x, chunk_z)) ->
    is_Some (region_cache s !! (region_of chunk_x, region_of chunk_z)).

(** Number of chunk decodes ([region.get_chunk] calls) in a trace. *)
Definition is_chunk_decode (ev : event) : bool :=
  match ev with
  | EvGetChunk _ _ _ => true
  | _ => false
  end.

Definition chunk_decodes (t : list event) : nat :=
  length (filter (fun ev => is_chunk_decode ev = true) t).

(** *** Deterministic collaborators *)

(** What a deterministic library answers, as functions of the arguments
    alone. *)
Record Oracle := {
  load : string -> outcome X Region;
  slot : Region -> Z -> Z -> outcome X Chunk;
  decode : Chunk -> Z -> Z -> Z -> outcome X Block
}.

(** [E] is deterministic with answers [O]: whatever the world, a call
    gives the oracle's answer (the world itself may still change). *)
Definition deterministic (O : Oracle) : Prop :=
  (forall p w, (from_file E p w).1 = load O p) /\
  (forall r lx lz w, (region_get_chunk E r lx lz w).1 = slot O r lx lz) /\
  (forall c bx y bz w, (chunk_get_block E c bx y bz w).1 = decode O c bx y bz).

(** What a lookup without caches resolves, for a reader on directory
    [dir]: the region of a region coordinate, the chunk of a chunk
    coordinate, the block identifier of a voxel. *)
Definition region_at (O : Oracle) (dir : string) (region_x region_z : Z)
    : option Region :=
  match load O (region_file dir region_x region_z) with
  | Returned region => Some region
  | Raised _ => None
  end.

Definition chunk_at (O : Oracle) (dir : string) (chunk_x chunk_z : Z)
    : option Chunk :=
  match region_at O dir (region_of chunk_x) (region_of chunk_z) with
  | Some region =>
      match slot O region (slot_of chunk_x) (slot_of chunk_z) with
      | Returned chunk => Some chunk
      | Raised _ => None
      end
  | None => None
  end.

Definition block_at (O : Oracle) (dir : string) (x y z : Z) : string :=
  match chunk_at O dir (chunk_of x) (chunk_of z) with
  | Some chunk =>
      match decode O chunk (block_of x) y (block_of z) with
      | Returned block => block_id E block
      | Raised _ => "minecraft:air"
      end
  | None => "minecraft:air"
  end.

(** The caches hold what the oracle answers. *)
Definition coherent (O : Oracle) (s : State) : Prop :=
  (forall region_x region_z r,
      region_cache s !! (region_x, region_z) = Some r ->
      region_at O (world_directory s) region_x region_z = Some r) /\
  (forall chunk_x chunk_z c,
      chunk_cache s !! (chunk_x, chunk_z) = Some c ->
      chunk_at O (world_directory s) chunk_x chunk_z = Some c).

End Reader.

(** The loops of the two batch methods as folds over keys: [put f m k]
    stores [f k] under [k] when there is one; [voxels] lists the keys in
    the order the nested loops of [scan_area] visit them; [solid] is the
    filter of [scan_area]. *)
Definition put {K V} `{Countable K} (f : K -> option V) (m : gmap K V) (k : K)
    : gmap K V :=
  match f k with
  | Some v => <[k := v]> m
  | None => m
  end.

Definition voxels (xs ys zs : list Z) : list (Z * Z * Z) :=
  x ← xs; y ← ys; z ← zs; [(x, y, z)].

Definition solid (id : string) : option string :=
  if bool_decide (id ∉ air_blocks) then Some id else None.

(** The voxels of the inclusive box spanned by two corners. *)
Definition in_box (x1 y1 z1 x2 y2 z2 : Z) (v : Z * Z * Z) : Prop :=
  let '(x, y, z) := v in
  Z.min x1 x2 <= x <= Z.max x1 x2 /\
  Z.min y1 y2 <= y <= Z.max y1 y2 /\
  Z.min z1 z2 <= z <= Z.max z1 z2.

(** ** A stub collaborator

    One region file, [r.0.0.mca], with one decodable chunk, slot (0,0);
    stone at (5,64,5), cave air at (4,63,4), air elsewhere, and a decode
    error below the world.  The world is a counter of the chunk decodes
    made so far. *)

Module Stub.

Definition env : @Env nat unit unit string unit := {|
  os_path_exists := fun p _ => String.eqb p "saves/region";
  from_file := fun p n =>
    if String.eqb p "saves/region/r.0.0.mca"
    then (Returned tt, n)
    else (Raised (LibraryError tt), n);
  region_get_chunk := fun _ lx lz n =>
    if (lx =? 0) && (lz =? 0)
    then (Returned tt, S n)
    else (Raised (LibraryError tt), S n);
  chunk_get_block := fun _ bx y bz n =>
    if y <? 0 then (Raised (LibraryError tt), n)
    else if (bx =? 5) && (y =? 64) && (bz =? 5) then (Returned "stone", n)
    else if (bx =? 4) && (y =? 63) && (bz =? 4) then (Returned "cave_air", n)
    else (Returned "air", n);
  block_id := fun b => b
|}.

Definition oracle : @Oracle unit unit string unit := {|
  load := fun p => (from_file env p O).1;
  slot := fun r lx lz => (region_get_chunk env r lx lz O).1;
  decode := fun c bx y bz => (chunk_get_block env c bx y bz O).1
|}.

(** The reader just after [WorkingMinecraftReader("saves")]. *)
Definition fresh : @State nat unit unit :=
  mkState "saves/region" ∅ ∅ O [].

End Stub.

(** ** What a lookup may ask of the library *)

Section Calls.

Context {W Region Chunk Block X : Type}.

(** The library calls of one [get_block], in the order they are made: a
    region load only on a region miss, a chunk decode only on a chunk miss
    with a region in hand, a block decode only with a chunk in hand. *)
Inductive lookup_calls (path : string) (lx lz bx y bz : Z)
    : list (@event Region Chunk) -> Prop :=
  | calls_block chunk :
      lookup_calls path lx lz bx y bz [EvGetBlock chunk bx y bz]
  | calls_chunk region :
      lookup_calls path lx lz bx y bz [EvGetChunk region lx lz]
  | calls_chunk_block region chunk :
      lookup_calls path lx lz bx y bz
        [EvGetChunk region lx lz; EvGetBlock chunk bx y bz]
  | calls_load :
      lookup_calls path lx lz bx y bz [EvFromFile path]
  | calls_load_chunk region :
      lookup_calls path lx lz bx y bz
        [EvFromFile path; EvGetChunk region lx lz]
  | calls_load_chunk_block region chunk :
      lookup_calls path lx lz bx y bz
        [EvFromFile path; EvGetChunk region lx lz; EvGetBlock chunk bx y bz].

(** A call the library's contract allows, seen from state [s]: a load names
    a region file of the reader's directory; a chunk decode asks a cached
    region for the slot of one of its own chunks; a block decode asks a
    cached chunk for a block at offsets of one of its own voxels. *)
Definition well_formed_event (s : @State W Region Chunk)
    (ev : @event Region Chunk) : Prop :=
  match ev with
  | EvFromFile path =>
      exists region_x region_z,
        path = region_file (world_directory s) region_x region_z
  | EvGetChunk region lx lz =>
      exists chunk_x chunk_z,
        lx = slot_of chunk_x /\ lz = slot_of chunk_z /\
        region_cache s !! (region_of chunk_x, region_of chunk_z) = Some region
  | EvGetBlock chunk bx y bz =>
      exists x z,
        bx = block_of x /\ bz = block_of z /\
        chunk_cache s !! (chunk_of x, chunk_of z) = Some chunk
  end.

(** [s'] extends [s], and the calls made in between are well formed. *)
Definition adds_calls (s s' : @State W Region Chunk) : Prop :=
  extends s s' /\
  exists evs, trace s' = trace s ++ evs /\ Forall (well_formed_event s') evs.

End Calls.

(** ** Characters of a string *)

(** Every character of [s] satisfies [p]. *)
Fixpoint chars_in (p : ascii -> bool) (s : string) : bool :=
  match s with
  | EmptyString => true
  | String a rest => p a && chars_in p rest
  end.

(** The characters [f"{n}"] is made of: decimal digits and the minus
    sign. *)
Definition is_int_char (a : ascii) : bool :=
  match a with
  | "0" | "1" | "2" | "3" | "4" | "5" | "6" | "7" | "8" | "9" | "-" => true
  | _ => false
  end%char.

(** ** The loops of scan_area as one loop *)

(** The scan order: by x, then by y, then by z. *)
Definition voxel_lt (v v' : Z * Z * Z) : Prop :=
  let '(x, y, z) := v in
  let '(x', y', z') := v' in
  x < x' \/ (x = x' /\ (y < y' \/ (y = y' /\ z < z'))).

(** The voxels [scan_area] visits for two corners, in the order of the
    three nested [range] loops (lines 156-158). *)
Definition box_voxels (x1 y1 z1 x2 y2 z2 : Z) : list (Z * Z * Z) :=
  voxels (Py.range (Z.min x1 x2) (Z.max x1 x2 + 1))
         (Py.range (Z.min y1 y2) (Z.max y1 y2 + 1))
         (Py.range (Z.min z1 z2) (Z.max z1 z2 + 1)).

Section Loops.

Context {W Region Chunk Block X : Type}.
Variable E : @Env W Region Chunk Block X.

(** What [scan_area] does at one voxel (lines 159-162). *)
Definition scan_body (blocks : gmap (Z * Z * Z) string) (v : Z * Z * Z)
    : @M W Region Chunk X (gmap (Z * Z * Z) string) :=
  let '(x, y, z) := v in
  bind (get_block E x y z) (fun block =>
    if bool_decide (block ∉ air_blocks)
    then ret (<[(x, y, z) := block]> blocks)
    else ret blocks).

(** What [get_multiple_blocks] does at one coordinate (lines 117-118). *)
Definition batch_body (results : gmap (Z * Z * Z) string) (v : Z * Z * Z)
    : @M W Region Chunk X (gmap (Z * Z * Z) string) :=
  let '(x, y, z) := v in
  bind (get_block E x y z) (fun block => ret (<[(x, y, z) := block]> results)).

End Loops.

(** ** The mapping of scan_area in insertion order, and what main writes *)

(** A Python dictionary with its insertion order, as [main] iterates
    it: the items in the order their keys were first set.  Setting a key
    that is present replaces its value in place; a new key goes to the
    end. *)
Fixpoint dict_set {K V} `{EqDecision K} (d : list (K * V)) (k : K) (v : V)
    : list (K * V) :=
  match d with
  | [] => [(k, v)]
  | (k', v') :: d' =>
      if decide (k' = k) then (k', v) :: d' else (k', v') :: dict_set d' k v
  end.

(** One line of the output file (lines 203-206 of parse_mc.py): z, x, y,
    each times 48, separated by single spaces, then a newline. *)
Definition output_line (v : Z * Z * Z) : string :=
  let '(x, y, z) := v in
  let scaled_x := x * 48 in
  let scaled_y := y * 48 in
  let scaled_z := z * 48 in
  Py.str_of_int scaled_z +:+ " " +:+ Py.str_of_int scaled_x +:+ " "
    +:+ Py.str_of_int scaled_y +:+ String "010"%char "".

(** The text the write loop (lines 202-206) puts in the file for the items
    of a dictionary. *)
Definition written_text (items : list ((Z * Z * Z) * string)) : string :=
  foldl (fun text '(v, _) => text +:+ output_line v) "" items.

(** The string [main] hashes into the file name (line 196). *)
Definition scan_string (x1 y1 z1 x2 y2 z2 : Z) : string :=
  Py.str_of_int x1 +:+ "_" +:+ Py.str_of_int y1 +:+ "_" +:+ Py.str_of_int z1
    +:+ "_" +:+ Py.str_of_int x2 +:+ "_" +:+ Py.str_of_int y2 +:+ "_"
    +:+ Py.str_of_int z2.

(** Number of newline characters of a text. *)
Fixpoint newlines (s : string) : nat :=
  match s with
  | EmptyString => O
  | String a rest => ((if Ascii.eqb a "010" then 1 else 0) + newlines rest)%nat
  end.

Section Items.

Context {W Region Chunk Block X : Type}.
Variable E : @Env W Region Chunk Block X.

(** What [scan_area] does at one voxel, on the dictionary with its order. *)
Definition items_body (blocks : list ((Z * Z * Z) * string)) (v : Z * Z * Z)
    : @M W Region Chunk X (list ((Z * Z * Z) * string)) :=
  let '(x, y, z) := v in
  bind (get_block E x y z) (fun block =>
    if bool_decide (block ∉ air_blocks)
    then ret (dict_set blocks (x, y, z) block)
    else ret blocks).

(** [scan_area] (lines 133-164) returning [blocks.items()]: the same three
    loops, the dictionary kept with its insertion order. *)
Definition scan_area_items (x1 y1 z1 x2 y2 z2 : Z)
    : @M W Region Chunk X (list ((Z * Z * Z) * string)) :=
  for_each (Py.range (Z.min x1 x2) (Z.max x1 x2 + 1)) [] (fun blocks x =>
    for_each (Py.range (Z.min y1 y2) (Z.max y1 y2 + 1)) blocks (fun blocks y =>
      for_each (Py.range (Z.min z1 z2) (Z.max z1 z2 + 1)) blocks (fun blocks z =>
        items_body blocks (x, y, z)))).

(** The scan of [main] (lines 189-206) after the command is parsed:
    [None] when the dictionary is empty and no file is written, else the
    text written to the file. *)
Definition main_scan (x1 y1 z1 x2 y2 z2 : Z)
    : @M W Region Chunk X (option string) :=
  bind (scan_area_items x1 y1 z1 x2 y2 z2) (fun blocks =>
    match blocks with
    | [] => ret None
    | _ => ret (Some (written_text blocks))
    end).

End Items.

(** ** list_available_regions (lines 122-131) *)

Module Listing.

(** [s.endswith(suffix)]. *)
Fixpoint endswith (s suffix : string) : bool :=
  String.eqb s suffix ||
  match s with
  | EmptyString => false
  | String _ rest => endswith rest suffix
  end.

(** The lines [list_available_regions] prints, given whether the region
    directory exists and what [os.listdir] gives for it; the method raises
    what [os.listdir] raises. *)
Definition list_available_regions {X} (path_exists : bool)
    (listdir : outcome X (list string)) : outcome X (list string) :=
  if negb path_exists then Returned ["Region path does not exist"]
  else
    match listdir with
    | Raised e => Raised e
    | Returned names =>
        let region_files := filter (fun f => endswith f ".mca" = true) names in
        Returned
          (("Found " +:+ pretty (length region_files) +:+ " region files:")
           :: ((fun file => "  " +:+ file) <$> merge_sort String.le region_files))
    end.

End Listing.

(** ** The reader as CPython runs it

    The definitions above describe the reader where every integer it
    formats can be printed, the library raises instances of [Exception]
    only, and block ids are strings.  The module below drops the three
    restrictions.  Since CPython 3.11 (and its security backports)
    converting an integer of more than [sys.get_int_max_str_digits()]
    decimal digits to text raises [ValueError], and that is what the
    f-strings of lines 56, 82, 93, 187 and 206 do to their integers;
    [except Exception] lets an exception that is not an [Exception]
    ([KeyboardInterrupt], [SystemExit], [GeneratorExit]) through; and the
    [id] of a block is whatever the library stores there, an integer for
    blocks in the old numeric format.  The text that [print] writes is
    still left out, but the formatting of its argument, which can raise,
    is not. *)

Module Strict.

(** The value of [block.id]. *)
Inductive pyval : Type :=
  | PyStr (s : string)
  | PyInt (n : Z).

(** What can be raised: an instance of [Exception] of the kinds above, the
    [ValueError] of an integer too long to print, or something that is a
    [BaseException] without being an [Exception]. *)
Inductive pyexn (X : Type) : Type :=
  | Ordinary (e : exn X)
  | ValueError
  | NotException (e : X).
Arguments Ordinary {X} e.
Arguments ValueError {X}.
Arguments NotException {X} e.

(** [isinstance(e, Exception)]. *)
Definition is_Exception {X} (e : pyexn X) : bool :=
  match e with
  | NotException _ => false
  | _ => true
  end.

Inductive result (X A : Type) : Type :=
  | Returns (a : A)
  | Raises (e : pyexn X).
Arguments Returns {X A} a.
Arguments Raises {X A} e.

(** [n] has more than [limit] decimal digits, for a limit that is set
    ([0] stands for no limit). *)
Definition too_long (limit : N) (n : Z) : bool :=
  negb (limit =? 0)%N && (10 ^ Z.of_N limit <=? Z.abs n).

(** [v not in air_blocks] for the set of six strings: an integer is in no
    set of strings. *)
Definition not_air (v : pyval) : bool :=
  match v with
  | PyStr s => bool_decide (s ∉ air_blocks)
  | PyInt _ => true
  end.

Section Reader.

Context {W Region Chunk Block X : Type}.

(** The external collaborator and the interpreter's digit limit. *)
Record Env := {
  os_path_exists : string -> W -> bool;
  from_file : string -> W -> result X Region * W;
  region_get_chunk : Region -> Z -> Z -> W -> result X Chunk * W;
  chunk_get_block : Chunk -> Z -> Z -> Z -> W -> result X Block * W;
  block_id : Block -> pyval;
  int_max_str_digits : N     (* 4300 unless changed; 0: no limit *)
}.

Variable E : Env.

Local Abbreviation State := (@State W Region Chunk).
Local Abbreviation event := (@event Region Chunk).

Definition PM (A : Type) : Type := State -> result X A * State.

Definition ret {A} (a : A) : PM A := fun s => (Returns a, s).

Definition bind {A B} (m : PM A) (k : A -> PM B) : PM B :=
  fun s =>
    match m s with
    | (Returns a, s') => k a s'
    | (Raises e, s') => (Raises e, s')
    end.

(** [try: body except Exception as e: handler e]: what is not an
    [Exception] is not caught. *)
Definition try_except {A} (body : PM A) (handler : pyexn X -> PM A) : PM A :=
  fun s =>
    match body s with
    | (Returns a, s') => (Returns a, s')
    | (Raises e, s') => if is_Exception e then handler e s' else (Raises e, s')
    end.

Definition gets {A} (f : State -> A) : PM A := fun s => (Returns (f s), s).
Definition modify (f : State -> State) : PM unit := fun s => (Returns tt, f s).

(** A computation that does not touch the state. *)
Definition eval {A} (r : result X A) : PM A := fun s => (r, s).

Definition call {A} (ev : event) (op : W -> result X A * W) : PM A :=
  fun s =>
    let (o, w') := op (world s) in
    (o, mkState (world_directory s) (region_cache s) (chunk_cache s)
                w' (trace s ++ [ev])).

Notation "x <- m ;; k" := (bind m (fun x => k))
  (at level 100, m at next level, right associativity, only parsing).

Fixpoint for_each {A B} (l : list A) (acc : B) (body : B -> A -> PM B) : PM B :=
  match l with
  | [] => ret acc
  | a :: l' => acc' <- body acc a ;; for_each l' acc' body
  end.

(** [f"{n}"]. *)
Definition str_of_int (n : Z) : result X string :=
  if too_long (int_max_str_digits E) n then Raises ValueError
  else Returns (Py.str_of_int n).

(** The integers an f-string formats, in order: the first too long one
    raises. *)
Fixpoint format_ints (ns : list Z) : result X unit :=
  match ns with
  | [] => Returns tt
  | n :: rest => if too_long (int_max_str_digits E) n then Raises ValueError
                 else format_ints rest
  end.

(** A handler that prints a message formatting [ns] and then returns
    [a]. *)
Definition print_then {A} (ns : list Z) (a : A) : PM A :=
  _ <- eval (format_ints ns) ;; ret a.

(** *** __init__ (lines 11-25) *)

Definition init (world_path : string) (w : W) : result X State :=
  let world_directory := Py.os_path_join world_path "region" in
  if os_path_exists E world_directory w
  then Returns (mkState world_directory ∅ ∅ w [])
  else Raises (Ordinary (FileNotFoundError
                 ("Region folder not found at " +:+ world_directory))).

(** *** _get_region (lines 85-103) *)

(** Line 93; it is evaluated before the [try] of line 95. *)
Definition region_file (dir : string) (region_x region_z : Z) : result X string :=
  match str_of_int region_x, str_of_int region_z with
  | Returns sx, Returns sz =>
      Returns (Py.os_path_join dir ("r." +:+ sx +:+ "." +:+ sz +:+ ".mca"))
  | Raises e, _ => Raises e
  | _, Raises e => Raises e
  end.

Definition _get_region (region_x region_z : Z) : PM (option Region) :=
  cached <- gets (fun s => region_cache s !! (region_x, region_z)) ;;
  match cached with
  | Some region => ret (Some region)
  | None =>
      path <- (fun s => eval (region_file (world_directory s) region_x region_z) s) ;;
      try_except
        (region <- call (EvFromFile path) (from_file E path) ;;
         _ <- modify (set_region_cache <[(region_x, region_z) := region]>) ;;
         ret (Some region))
        (fun e => print_then [] None)   (* line 102 formats no integer *)
  end.

(** *** _get_chunk (lines 59-83) *)

Definition _get_chunk (chunk_x chunk_z : Z) : PM (option Chunk) :=
  cached <- gets (fun s => chunk_cache s !! (chunk_x, chunk_z)) ;;
  match cached with
  | Some chunk => ret (Some chunk)
  | None =>
      let region_x := region_of chunk_x in
      let region_z := region_of chunk_z in
      region <- _get_region region_x region_z ;;
      match region with
      | None => ret None
      | Some region =>
          try_except
            (chunk <- call (EvGetChunk region (slot_of chunk_x) (slot_of chunk_z))
                       (region_get_chunk E region (slot_of chunk_x) (slot_of chunk_z)) ;;
             _ <- modify (set_chunk_cache <[(chunk_x, chunk_z) := chunk]>) ;;
             ret (Some chunk))
            (fun e => print_then [chunk_x; chunk_z] None)   (* line 82 *)
      end
  end.

(** *** get_block (lines 27-57) *)

Definition get_block (x y z : Z) : PM pyval :=
  try_except
    (let chunk_x := chunk_of x in
     let chunk_z := chunk_of z in
     let block_x := block_of x in
     let block_z := block_of z in
     chunk <- _get_chunk chunk_x chunk_z ;;
     match chunk with
     | None => ret (PyStr "minecraft:air")
     | Some chunk =>
         block <- call (EvGetBlock chunk block_x y block_z)
                    (chunk_get_block E chunk block_x y block_z) ;;
         ret (block_id E block)
     end)
    (fun e => print_then [x; y; z] (PyStr "minecraft:air")).   (* line 56 *)

(** *** get_multiple_blocks (lines 105-120) *)

Definition get_multiple_blocks (coordinates : list (Z * Z * Z))
    : PM (gmap (Z * Z * Z) pyval) :=
  for_each coordinates ∅ (fun results '(x, y, z) =>
    block <- get_block x y z ;;
    ret (<[(x, y, z) := block]> results)).

(** *** scan_area (lines 133-164) *)

Definition scan_area (x1 y1 z1 x2 y2 z2 : Z) : PM (gmap (Z * Z * Z) pyval) :=
  for_each (Py.range (Z.min x1 x2) (Z.max x1 x2 + 1)) ∅ (fun blocks x =>
    for_each (Py.range (Z.min y1 y2) (Z.max y1 y2 + 1)) blocks (fun blocks y =>
      for_each (Py.range (Z.min z1 z2) (Z.max z1 z2 + 1)) blocks (fun blocks z =>
        block <- get_block x y z ;;
        if not_air block
        then ret (<[(x, y, z) := block]> blocks)
        else ret blocks))).

(** What [scan_area] does at one voxel (lines 159-162), and what
    [get_multiple_blocks] does at one coordinate (lines 117-118). *)
Definition scan_body (blocks : gmap (Z * Z * Z) pyval) (v : Z * Z * Z)
    : PM (gmap (Z * Z * Z) pyval) :=
  let '(x, y, z) := v in
  block <- get_block x y z ;;
  if not_air block
  then ret (<[(x, y, z) := block]> blocks)
  else ret blocks.

Definition batch_body (results : gmap (Z * Z * Z) pyval) (v : Z * Z * Z)
    : PM (gmap (Z * Z * Z) pyval) :=
  let '(x, y, z) := v in
  block <- get_block x y z ;;
  ret (<[(x, y, z) := block]> results).

(** *** main, from the parsed command to the written file (lines 187-206) *)

(** [scan_area] returning [blocks.items()]: the same three loops, the
    dictionary kept with its insertion order. *)
Definition items_body (blocks : list ((Z * Z * Z) * pyval)) (v : Z * Z * Z)
    : PM (list ((Z * Z * Z) * pyval)) :=
  let '(x, y, z) := v in
  block <- get_block x y z ;;
  if not_air block
  then ret (dict_set blocks (x, y, z) block)
  else ret blocks.

Definition scan_area_items (x1 y1 z1 x2 y2 z2 : Z)
    : PM (list ((Z * Z * Z) * pyval)) :=
  for_each (Py.range (Z.min x1 x2) (Z.max x1 x2 + 1)) [] (fun blocks x =>
    for_each (Py.range (Z.min y1 y2) (Z.max y1 y2 + 1)) blocks (fun blocks y =>
      for_each (Py.range (Z.min z1 z2) (Z.max z1 z2 + 1)) blocks (fun blocks z =>
        items_body blocks (x, y, z)))).

(** The f-string of line 206, on the scaled coordinates of lines 203-205. *)
Definition output_line (v : Z * Z * Z) : result X string :=
  let '(x, y, z) := v in
  let scaled_x := x * 48 in
  let scaled_y := y * 48 in
  let scaled_z := z * 48 in
  match str_of_int scaled_z, str_of_int scaled_x, str_of_int scaled_y with
  | Returns sz, Returns sx, Returns sy =>
      Returns (sz +:+ " " +:+ sx +:+ " " +:+ sy +:+ String "010"%char "")
  | Raises e, _, _ => Raises e
  | _, Raises e, _ => Raises e
  | _, _, Raises e => Raises e
  end.

(** The write loop (lines 202-206) on a file holding [text]: the text of
    the file when the loop ends, and how it ends.  A line that cannot be
    formatted ends the loop with the lines before it written. *)
Fixpoint write_lines (items : list ((Z * Z * Z) * pyval)) (text : string)
    : string * result X unit :=
  match items with
  | [] => (text, Returns tt)
  | (v, _) :: rest =>
      match output_line v with
      | Returns line => write_lines rest (text +:+ line)
      | Raises e => (text, Raises e)
      end
  end.

(** Lines 187-206 of [main], the command parsed into six integers: the
    text of the output file ([None] when no file is opened), how the step
    ends, and the reader afterwards.  The file name, the other console
    messages and the opening of the file are left out; [len(blocks)],
    which lines 192 and 208 format, is a machine-size integer, which every
    digit limit that can be set (640 at least) lets through. *)
Definition main_scan (x1 y1 z1 x2 y2 z2 : Z)
    : State -> option string * result X unit * State :=
  fun s =>
    match format_ints [x1; y1; z1; x2; y2; z2] with            (* line 187 *)
    | Raises e => (None, Raises e, s)
    | Returns _ =>
        match scan_area_items x1 y1 z1 x2 y2 z2 s with         (* line 189 *)
        | (Raises e, s') => (None, Raises e, s')
        | (Returns [], s') => (None, Returns tt, s')           (* line 227 *)
        | (Returns blocks, s') =>
            let (text, r) := write_lines blocks "" in          (* lines 201-206 *)
            (Some text, r, s')
        end
    end.

(** The library raises instances of [Exception] only. *)
Definition only_exceptions : Prop :=
  (forall p w e, (from_file E p w).1 = Raises e -> is_Exception e = true) /\
  (forall r lx lz w e,
      (region_get_chunk E r lx lz w).1 = Raises e -> is_Exception e = true) /\
  (forall c bx y bz w e,
      (chunk_get_block E c bx y bz w).1 = Raises e -> is_Exception e = true).

(** [e] is raised by some call of the library. *)
Definition library_raises (e : pyexn X) : Prop :=
  (exists p w, (from_file E p w).1 = Raises e) \/
  (exists r lx lz w, (region_get_chunk E r lx lz w).1 = Raises e) \/
  (exists c bx y bz w, (chunk_get_block E c bx y bz w).1 = Raises e).

End Reader.

End Strict.

(** *** From the restricted reader to the strict one *)

(** An outcome of the restricted model as a result of the strict one. *)
Definition as_result {X A B} (f : A -> B) (o : outcome X A) : Strict.result X B :=
  match o with
  | Returned a => Strict.Returns (f a)
  | Raised e => Strict.Raises (Strict.Ordinary e)
  end.

(** A collaborator of the restricted model as one of the strict model, for
    an interpreter with digit limit [limit]: it raises instances of
    [Exception] only, and its block ids are strings. *)
Definition strict_env {W Region Chunk Block X : Type}
    (E : @Env W Region Chunk Block X) (limit : N)
    : @Strict.Env W Region Chunk Block X := {|
  Strict.os_path_exists := os_path_exists E;
  Strict.from_file := fun p w =>
    let (o, w') := from_file E p w in (as_result id o, w');
  Strict.region_get_chunk := fun r lx lz w =>
    let (o, w') := region_get_chunk E r lx lz w in (as_result id o, w');
  Strict.chunk_get_block := fun c bx y bz w =>
    let (o, w') := chunk_get_block E c bx y bz w in (as_result id o, w');
  Strict.block_id := fun b => Strict.PyStr (block_id E b);
  Strict.int_max_str_digits := limit
|}.

(** ** Stub collaborators for the strict reader *)

Module StrictStub.

(** The stub above under the default digit limit. *)
Definition env : @Strict.Env nat unit unit string unit := strict_env Stub.env 4300.

(** A world in the old numeric format whose decoder is interrupted below
    the world: stone has id 1, everything else id 0, and a decode at
    negative height raises [KeyboardInterrupt]. *)
Definition legacy : @Strict.Env nat unit unit Z unit := {|
  Strict.os_path_exists := fun p _ => String.eqb p "saves/region";
  Strict.from_file := fun p n =>
    if String.eqb p "saves/region/r.0.0.mca"
    then (Strict.Returns tt, n)
    else (Strict.Raises (Strict.Ordinary (FileNotFoundError p)), n);
  Strict.region_get_chunk := fun _ lx lz n =>
    if (lx =? 0) && (lz =? 0)
    then (Strict.Returns tt, S n)
    else (Strict.Raises (Strict.Ordinary (LibraryError tt)), S n);
  Strict.chunk_get_block := fun _ bx y bz n =>
    if y <? 0 then (Strict.Raises (Strict.NotException tt), n)
    else if (bx =? 5) && (y =? 64) && (bz =? 5) then (Strict.Returns 1, n)
    else (Strict.Returns 0, n);
  Strict.block_id := fun b => Strict.PyInt b;
  Strict.int_max_str_digits := 4300
|}.

End StrictStub.

(** ** The coordinate decomposer *)

Lemma chunk_of_div (x : Z) : chunk_of x = x `div` 16.
Proof. unfold chunk_of. now rewrite Z.shiftr_div_pow2 by lia. Qed.

Lemma block_of_mod (x : Z) : block_of x = x `mod` 16.
Proof.
  unfold block_of. change 15 with (Z.ones 4).
  now rewrite Z.land_ones by lia.
Qed.

(** C2: splitting a world coordinate into [x >> 4] and [x & 15] and putting
    the two back together as [(x >> 4) * 16 + (x & 15)] gives [x] again, for
    every integer, negative ones included: the shift is floor division by 16
    and the mask is the remainder in [0, 16). *)
Theorem decompose_recompose (x : Z) :
  chunk_of x * 16 + block_of x = x /\
  chunk_of x = x `div` 16 /\
  block_of x = x `mod` 16 /\
  0 <= block_of x < 16.
Proof.
  rewrite chunk_of_div, block_of_mod.
  pose proof (Z.div_mod x 16 ltac:(lia)).
  pose proof (Z.mod_pos_bound x 16 ltac:(lia)).
  repeat split; lia.
Qed.

(** The same round trip one level up, from chunk to region and slot. *)
Lemma region_slot_recompose (c : Z) :
  region_of c * 32 + slot_of c = c /\ 0 <= slot_of c < 32.
Proof.
  unfold region_of, slot_of.
  pose proof (Z.div_mod c 32 ltac:(lia)).
  pose proof (Z.mod_pos_bound c 32 ltac:(lia)).
  lia.
Qed.

Example decompose_negative :
  chunk_of (-1) = -1 /\ block_of (-1) = 15 /\
  chunk_of (-17) = -2 /\ block_of (-17) = 15 /\
  region_of (-1) = -1 /\ slot_of (-1) = 31.
Proof. repeat split; reflexivity. Qed.

(** ** Folds over keys *)

Lemma put_foldl_lookup {K V} `{Countable K} (f : K -> option V) ks (m : gmap K V) k :
  foldl (put f) m ks !! k =
    if decide (k ∈ ks)
    then match f k with Some v => Some v | None => m !! k end
    else m !! k.
Proof.
  induction ks as [|k' ks IH] using rev_ind.
  - cbn. case_decide as Hin; [by apply elem_of_nil in Hin|done].
  - rewrite foldl_snoc. unfold put at 1.
    destruct (decide (k' = k)) as [->|Hne].
    + rewrite decide_True
        by (rewrite elem_of_app, list_elem_of_singleton; by right).
      destruct (f k) as [v|] eqn:Hf; [by rewrite lookup_insert_eq|].
      rewrite IH. by case_decide.
    + assert (Hiff : k ∈ ks ++ [k'] <-> k ∈ ks).
      { rewrite elem_of_app, list_elem_of_singleton.
        split; [intros [?|?]; [done|congruence]|by left]. }
      destruct (f k') as [v|]; rewrite ?lookup_insert_ne by done; rewrite IH;
        destruct (decide (k ∈ ks ++ [k'])), (decide (k ∈ ks)); tauto.
Qed.

Lemma foldl_ext_all {A B} (g1 g2 : B -> A -> B) (l : list A) acc :
  (forall acc a, g1 acc a = g2 acc a) -> foldl g1 acc l = foldl g2 acc l.
Proof.
  intros Hg. revert acc. induction l as [|a l IH]; intros acc; cbn; [done|].
  by rewrite Hg, IH.
Qed.

Lemma foldl_bind_list {A B C} (g : C -> B -> C) (h : A -> list B) (l : list A) acc :
  foldl g acc (l ≫= h) = foldl (fun acc a => foldl g acc (h a)) acc l.
Proof.
  revert acc. induction l as [|a l IH]; intros acc; cbn; [done|].
  by rewrite foldl_app, IH.
Qed.

(** The three nested loops visit the keys of [voxels] in order. *)
Lemma nested_loops_voxels {V} (f : Z * Z * Z -> option V) (xs ys zs : list Z)
    (m : gmap (Z * Z * Z) V) :
  foldl (fun m x =>
    foldl (fun m y =>
      foldl (fun m z => put f m (x, y, z)) m zs) m ys) m xs
  = foldl (put f) m (voxels xs ys zs).
Proof.
  unfold voxels. rewrite foldl_bind_list.
  apply foldl_ext_all; intros m1 x. rewrite foldl_bind_list.
  apply foldl_ext_all; intros m2 y. rewrite foldl_bind_list.
  by apply foldl_ext_all.
Qed.

Lemma elem_of_voxels (xs ys zs : list Z) (x y z : Z) :
  (x, y, z) ∈ voxels xs ys zs <-> x ∈ xs /\ y ∈ ys /\ z ∈ zs.
Proof.
  unfold voxels. rewrite list_elem_of_bind. split.
  - intros (x' & Hin & Hx). apply list_elem_of_bind in Hin as (y' & Hin & Hy).
    apply list_elem_of_bind in Hin as (z' & Hin & Hz).
    apply list_elem_of_singleton in Hin. by simplify_eq.
  - intros (Hx & Hy & Hz). exists x. split; [|done].
    apply list_elem_of_bind. exists y. split; [|done].
    apply list_elem_of_bind. exists z. split; [|done].
    by apply list_elem_of_singleton.
Qed.

Lemma elem_of_range lo hi x : x ∈ Py.range lo (hi + 1) <-> lo <= x <= hi.
Proof. unfold Py.range. rewrite elem_of_seqZ. lia. Qed.

Lemma elem_of_box_voxels x1 y1 z1 x2 y2 z2 x y z :
  (x, y, z) ∈ voxels (Py.range (Z.min x1 x2) (Z.max x1 x2 + 1))
                     (Py.range (Z.min y1 y2) (Z.max y1 y2 + 1))
                     (Py.range (Z.min z1 z2) (Z.max z1 z2 + 1))
  <-> in_box x1 y1 z1 x2 y2 z2 (x, y, z).
Proof. rewrite elem_of_voxels, !elem_of_range. reflexivity. Qed.

Section ReaderFacts.

Context {W Region Chunk Block X : Type}.
Variable E : @Env W Region Chunk Block X.

Local Abbreviation State := (@State W Region Chunk).
Local Abbreviation event := (@event Region Chunk).

Implicit Types (s : State) (r : Region) (c : Chunk).

(** *** Region resolution, case by case *)

Lemma _get_region_hit region_x region_z s r :
  region_cache s !! (region_x, region_z) = Some r ->
  _get_region E region_x region_z s = (Returned (Some r), s).
Proof. intros H. unfold _get_region, bind, gets, ret. now rewrite H. Qed.

(** On a miss the file named after the coordinates is loaded: the call
    is logged, and the region is cached exactly when the load returns. *)
Lemma _get_region_miss region_x region_z s :
  region_cache s !! (region_x, region_z) = None ->
  _get_region E region_x region_z s =
    let path := region_file (world_directory s) region_x region_z in
    let after w' :=
      mkState (world_directory s) (region_cache s) (chunk_cache s) w'
              (trace s ++ [EvFromFile path]) in
    match from_file E path (world s) with
    | (Returned r, w') =>
        (Returned (Some r),
         set_region_cache <[(region_x, region_z) := r]> (after w'))
    | (Raised _, w') => (Returned None, after w')
    end.
Proof.
  intros H. unfold _get_region, bind, gets, ret, try_except, call, modify.
  rewrite H. cbn.
  now destruct (from_file E _ (world s)) as [[r|e] w'].
Qed.

(** *** Chunk resolution, case by case *)

Lemma _get_chunk_hit chunk_x chunk_z s c :
  chunk_cache s !! (chunk_x, chunk_z) = Some c ->
  _get_chunk E chunk_x chunk_z s = (Returned (Some c), s).
Proof. intros H. unfold _get_chunk, bind, gets, ret. now rewrite H. Qed.

(** On a miss the region is resolved first; with a region in hand its
    slot is decoded: the call is logged, and the chunk is cached exactly
    when the decode returns. *)
Lemma _get_chunk_miss chunk_x chunk_z s :
  chunk_cache s !! (chunk_x, chunk_z) = None ->
  _get_chunk E chunk_x chunk_z s =
    match _get_region E (region_of chunk_x) (region_of chunk_z) s with
    | (Returned (Some r), s1) =>
        let after w' :=
          mkState (world_directory s1) (region_cache s1) (chunk_cache s1) w'
                  (trace s1 ++ [EvGetChunk r (slot_of chunk_x) (slot_of chunk_z)]) in
        match region_get_chunk E r (slot_of chunk_x) (slot_of chunk_z) (world s1) with
        | (Returned c, w') =>
            (Returned (Some c),
             set_chunk_cache <[(chunk_x, chunk_z) := c]> (after w'))
        | (Raised _, w') => (Returned None, after w')
        end
    | (Returned None, s1) => (Returned None, s1)
    | (Raised e, s1) => (Raised e, s1)
    end.
Proof.
  intros H. unfold _get_chunk at 1. unfold bind at 1. unfold gets at 1.
  rewrite H. unfold bind at 1.
  destruct (_get_region E _ _ s) as [[[r|]|e] s1]; try reflexivity.
  unfold try_except, bind, call, modify, ret. cbn.
  now destruct (region_get_chunk E r _ _ (world s1)) as [[c|e] w'].
Qed.

(** Neither resolver raises. *)
Lemma _get_region_returns region_x region_z s :
  exists o, (_get_region E region_x region_z s).1 = Returned o.
Proof.
  destruct (region_cache s !! (region_x, region_z)) as [r|] eqn:H.
  - rewrite (_get_region_hit _ _ _ _ H). eauto.
  - rewrite (_get_region_miss _ _ _ H). cbn.
    destruct (from_file E _ (world s)) as [[r|e] w']; eauto.
Qed.


(** *** Block lookup, case by case *)

Lemma get_block_unfold x y z s :
  get_block E x y z s =
    match _get_chunk E (chunk_of x) (chunk_of z) s with
    | (Returned (Some c), s1) =>
        let s2 w' :=
          mkState (world_directory s1) (region_cache s1) (chunk_cache s1) w'
                  (trace s1 ++ [EvGetBlock c (block_of x) y (block_of z)]) in
        match chunk_get_block E c (block_of x) y (block_of z) (world s1) with
        | (Returned b, w') => (Returned (block_id E b), s2 w')
        | (Raised _, w') => (Returned "minecraft:air", s2 w')
        end
    | (Returned None, s1) => (Returned "minecraft:air", s1)
    | (Raised _, s1) => (Returned "minecraft:air", s1)
    end.
Proof.
  unfold get_block, try_except. cbv zeta. unfold bind at 1.
  destruct (_get_chunk E _ _ s) as [[[c|]|e] s1]; try reflexivity.
  unfold bind, call, ret. cbn.
  now destruct (chunk_get_block E c _ _ _ (world s1)) as [[b|e] w'].
Qed.

(** The catch-all handler leaves no way for [get_block] to raise. *)
Lemma get_block_returns x y z s :
  exists v, (get_block E x y z s).1 = Returned v.
Proof.
  rewrite get_block_unfold.
  destruct (_get_chunk E _ _ s) as [[[c|]|e] s1]; cbn; eauto.
  destruct (chunk_get_block E c _ _ _ (world s1)) as [[b|e] w']; cbn; eauto.
Qed.


(** *** Failures are not remembered *)

(** When [_get_region] answers [None] it was a cache miss followed by a
    failed load, and nothing but the world and the trace changed. *)
Lemma _get_region_absent region_x region_z s :
  (_get_region E region_x region_z s).1 = Returned None ->
  let path := region_file (world_directory s) region_x region_z in
  region_cache s !! (region_x, region_z) = None /\
  (exists e, (from_file E path (world s)).1 = Raised e) /\
  (_get_region E region_x region_z s).2 =
    mkState (world_directory s) (region_cache s) (chunk_cache s)
            (from_file E path (world s)).2 (trace s ++ [EvFromFile path]).
Proof.
  intros H path.
  destruct (region_cache s !! (region_x, region_z)) as [r|] eqn:Hrc.
  - rewrite _get_region_hit with (r := r) in H by assumption. discriminate.
  - rewrite _get_region_miss in H |- * by assumption. fold path in H |- *.
    cbv zeta in *.
    destruct (from_file E path (world s)) as [[r|e] w']; cbn in *;
      [discriminate|eauto].
Qed.

(** C10: a failed region load is not remembered.  When the key is not
    cached and loading the file raises (a missing file included),
    [_get_region] answers [None] and leaves both caches as they were; the
    next resolution of the same coordinates, in whatever world it then
    runs, calls the loader again on the same constructed path and returns
    what that call gives. *)
Theorem region_failure_not_cached region_x region_z s e :
  region_cache s !! (region_x, region_z) = None ->
  (from_file E (region_file (world_directory s) region_x region_z) (world s)).1
    = Raised e ->
  let path := region_file (world_directory s) region_x region_z in
  let s' := (_get_region E region_x region_z s).2 in
  (_get_region E region_x region_z s).1 = Returned None /\
  region_cache s' = region_cache s /\
  chunk_cache s' = chunk_cache s /\
  region_cache s' !! (region_x, region_z) = None /\
  forall w,
    let retry := _get_region E region_x region_z (set_world w s') in
    trace retry.2 = trace s' ++ [EvFromFile path] /\
    retry.1 =
      match (from_file E path w).1 with
      | Returned r => Returned (Some r)
      | Raised _ => Returned None
      end.
Proof.
  intros Hmiss Hfail path s'.
  assert (Heq : _get_region E region_x region_z s =
                (Returned None,
                 mkState (world_directory s) (region_cache s) (chunk_cache s)
                         (from_file E path (world s)).2
                         (trace s ++ [EvFromFile path]))).
  { rewrite _get_region_miss by assumption. fold path in Hfail |- *. cbv zeta.
    destruct (from_file E path (world s)) as [[r|e'] w'];
      [discriminate|reflexivity]. }
  subst s'. rewrite Heq.
  repeat (split; [first [reflexivity | exact Hmiss]|]).
  intros w retry. subst retry.
  rewrite _get_region_miss by exact Hmiss. cbn. fold path.
  now destruct (from_file E path w) as [[r|e''] w''].
Qed.

(** When [_get_chunk] answers [None] it was a cache miss, and either the
    region was absent or the decode of the slot raised. *)
Lemma _get_chunk_absent chunk_x chunk_z s :
  (_get_chunk E chunk_x chunk_z s).1 = Returned None ->
  chunk_cache s !! (chunk_x, chunk_z) = None /\
  ((_get_region E (region_of chunk_x) (region_of chunk_z) s).1 = Returned None \/
   exists r s1 e,
     _get_region E (region_of chunk_x) (region_of chunk_z) s
       = (Returned (Some r), s1) /\
     (region_get_chunk E r (slot_of chunk_x) (slot_of chunk_z) (world s1)).1
       = Raised e).
Proof.
  intros H.
  destruct (chunk_cache s !! (chunk_x, chunk_z)) as [c|] eqn:Hcc.
  - rewrite _get_chunk_hit with (c := c) in H by assumption. discriminate.
  - split; [reflexivity|].
    rewrite _get_chunk_miss in H by assumption.
    destruct (_get_region E _ _ s) as [[[r|]|e] s1]; cbn in *.
    + right. exists r, s1.
      destruct (region_get_chunk E r _ _ (world s1)) as [[c|e] w'];
        cbn in *; [discriminate|eauto].
    + now left.
    + discriminate.
Qed.

(** Resolving a region never touches the chunk cache. *)
Lemma _get_region_chunk_cache region_x region_z s :
  chunk_cache (_get_region E region_x region_z s).2 = chunk_cache s.
Proof.
  destruct (region_cache s !! (region_x, region_z)) as [r|] eqn:Hrc.
  - now rewrite _get_region_hit with (r := r).
  - rewrite _get_region_miss by assumption. cbv zeta.
    now destruct (from_file E _ (world s)) as [[r|e] w'].
Qed.

(** C7: an absent chunk is not remembered.  Whenever [_get_chunk] answers
    [None] (the region was absent, or the decode of the slot raised), the
    chunk cache is left as it was and has no entry for the coordinates; and
    in every state without such an entry, resolving the chunk starts again
    with region resolution and, given a region, decodes the slot again. *)
Theorem chunk_failure_not_cached chunk_x chunk_z s :
  (_get_chunk E chunk_x chunk_z s).1 = Returned None ->
  let s' := (_get_chunk E chunk_x chunk_z s).2 in
  chunk_cache s' = chunk_cache s /\
  chunk_cache s' !! (chunk_x, chunk_z) = None /\
  forall s'',
    chunk_cache s'' !! (chunk_x, chunk_z) = None ->
    exists o s1,
      _get_region E (region_of chunk_x) (region_of chunk_z) s'' = (Returned o, s1) /\
      match o with
      | None => _get_chunk E chunk_x chunk_z s'' = (Returned None, s1)
      | Some r =>
          trace (_get_chunk E chunk_x chunk_z s'').2 =
            trace s1 ++ [EvGetChunk r (slot_of chunk_x) (slot_of chunk_z)] /\
          (_get_chunk E chunk_x chunk_z s'').1 =
            match (region_get_chunk E r (slot_of chunk_x) (slot_of chunk_z)
                     (world s1)).1 with
            | Returned c => Returned (Some c)
            | Raised _ => Returned None
            end
      end.
Proof.
  intros H s'. subst s'.
  destruct (_get_chunk_absent _ _ _ H) as [Hcc _].
  assert (Hsame : chunk_cache (_get_chunk E chunk_x chunk_z s).2 = chunk_cache s).
  { rewrite _get_chunk_miss in H |- * by assumption.
    pose proof (_get_region_chunk_cache (region_of chunk_x) (region_of chunk_z) s)
      as Hreg.
    destruct (_get_region E _ _ s) as [[[r|]|e] s1]; cbn in *; try assumption.
    destruct (region_get_chunk E r _ _ (world s1)) as [[c|e] w'];
      cbn in *; [discriminate|assumption]. }
  split; [assumption|]. split; [now rewrite Hsame|].
  intros s'' Hcc''.
  rewrite _get_chunk_miss by assumption.
  destruct (_get_region_returns (region_of chunk_x) (region_of chunk_z) s'')
    as [o Ho].
  destruct (_get_region E _ _ s'') as [o' s1]. cbn in Ho. subst o'.
  exists o, s1. split; [reflexivity|].
  destruct o as [r|]; [|reflexivity]. cbv zeta.
  now destruct (region_get_chunk E r _ _ (world s1)) as [[c|e] w'].
Qed.

(** *** Composing methods *)

Section Keeps.

Variable R : State -> State -> Prop.
Hypothesis R_refl : forall s, R s s.
Hypothesis R_trans : forall s1 s2 s3, R s1 s2 -> R s2 s3 -> R s1 s3.

Lemma keeps_ret {A} (a : A) : keeps R (ret (X := X) a).
Proof. intros s. apply R_refl. Qed.

Lemma keeps_bind {A B} (m : M A) (k : A -> M B) :
  keeps R m -> (forall a, keeps R (k a)) -> keeps R (bind (X := X) m k).
Proof.
  intros Hm Hk s. unfold bind. specialize (Hm s).
  destruct (m s) as [[a|e] s1]; cbn in *; [|assumption].
  eapply R_trans; [eassumption|apply Hk].
Qed.

Lemma keeps_try_except {A} (body : M A) handler :
  keeps R body -> (forall e, keeps R (handler e)) ->
  keeps R (try_except (X := X) body handler).
Proof.
  intros Hm Hk s. unfold try_except. specialize (Hm s).
  destruct (body s) as [[a|e] s1]; cbn in *; [assumption|].
  eapply R_trans; [eassumption|apply Hk].
Qed.

Lemma keeps_for_each {A B} (body : B -> A -> M B) (l : list A) :
  (forall acc a, keeps R (body acc a)) ->
  forall acc, keeps R (for_each (X := X) l acc body).
Proof.
  intros Hbody. induction l as [|a l IH]; intros acc; cbn.
  - apply keeps_ret.
  - apply keeps_bind; [apply Hbody|apply IH].
Qed.

(** A library call changes the world and the trace only. *)
Hypothesis R_call : forall s w' ev,
  R s (mkState (world_directory s) (region_cache s) (chunk_cache s) w'
               (trace s ++ [ev])).

Lemma keeps_call {A} ev (op : W -> outcome X A * W) : keeps R (call ev op).
Proof. intros s. unfold call. destruct (op (world s)). apply R_call. Qed.

Hypothesis R_get_chunk : forall chunk_x chunk_z, keeps R (_get_chunk E chunk_x chunk_z).

Lemma keeps_get_block x y z : keeps R (get_block E x y z).
Proof.
  unfold get_block. apply keeps_try_except; [|intros; apply keeps_ret].
  cbv zeta. apply keeps_bind; [apply R_get_chunk|].
  intros [c|]; [|apply keeps_ret].
  apply keeps_bind; [apply keeps_call|intros; apply keeps_ret].
Qed.

Lemma keeps_get_multiple_blocks coordinates :
  keeps R (get_multiple_blocks E coordinates).
Proof.
  unfold get_multiple_blocks. apply keeps_for_each.
  intros acc [[x y] z].
  apply keeps_bind; [apply keeps_get_block|intros; apply keeps_ret].
Qed.

Lemma keeps_scan_area x1 y1 z1 x2 y2 z2 :
  keeps R (scan_area E x1 y1 z1 x2 y2 z2).
Proof.
  unfold scan_area.
  apply keeps_for_each; intros ? x.
  apply keeps_for_each; intros ? y.
  apply keeps_for_each; intros ? z.
  apply keeps_bind; [apply keeps_get_block|].
  intros b. case_bool_decide; apply keeps_ret.
Qed.

End Keeps.

(** *** Cache entries are never dropped or replaced *)

Lemma extends_refl s : extends s s.
Proof. unfold extends. naive_solver. Qed.

Lemma extends_trans s1 s2 s3 : extends s1 s2 -> extends s2 s3 -> extends s1 s3.
Proof.
  intros (Hd1 & Hr1 & Hc1 & Ht1) (Hd2 & Hr2 & Hc2 & Ht2).
  repeat split; [congruence|by etrans..].
Qed.

Lemma extends_call s w' ev :
  extends s (mkState (world_directory s) (region_cache s) (chunk_cache s) w'
                     (trace s ++ [ev])).
Proof. repeat split; cbn; [done..|by apply prefix_app_r]. Qed.

Lemma _get_region_extends region_x region_z : keeps extends (_get_region E region_x region_z).
Proof.
  intros s.
  destruct (region_cache s !! (region_x, region_z)) as [r|] eqn:Hrc.
  - rewrite _get_region_hit with (r := r) by assumption. apply extends_refl.
  - rewrite _get_region_miss by assumption. cbv zeta.
    destruct (from_file E _ (world s)) as [[r|e] w']; cbn.
    + repeat split; cbn; [by apply insert_subseteq|done|by apply prefix_app_r].
    + apply extends_call.
Qed.

Lemma _get_chunk_extends chunk_x chunk_z : keeps extends (_get_chunk E chunk_x chunk_z).
Proof.
  intros s.
  destruct (chunk_cache s !! (chunk_x, chunk_z)) as [c|] eqn:Hcc.
  - rewrite _get_chunk_hit with (c := c) by assumption. apply extends_refl.
  - rewrite _get_chunk_miss by assumption.
    pose proof (_get_region_extends (region_of chunk_x) (region_of chunk_z) s) as Hreg.
    pose proof (_get_region_chunk_cache (region_of chunk_x) (region_of chunk_z) s)
      as Hsame.
    destruct (_get_region E _ _ s) as [[[r|]|e] s1]; cbn in *; try assumption.
    eapply extends_trans; [exact Hreg|].
    assert (Hcc1 : chunk_cache s1 !! (chunk_x, chunk_z) = None) by congruence.
    destruct (region_get_chunk E r _ _ (world s1)) as [[c|e] w']; cbn.
    + repeat split; cbn; [done|by apply insert_subseteq|by apply prefix_app_r].
    + apply extends_call.
Qed.

Lemma step_extends s s' : step E s s' -> extends s s'.
Proof.
  destruct 1.
  - apply keeps_get_block;
      [exact extends_refl|exact extends_trans|exact extends_call
      |exact _get_chunk_extends].
  - apply _get_chunk_extends.
  - apply _get_region_extends.
  - apply keeps_get_multiple_blocks;
      [exact extends_refl|exact extends_trans|exact extends_call
      |exact _get_chunk_extends].
  - apply keeps_scan_area;
      [exact extends_refl|exact extends_trans|exact extends_call
      |exact _get_chunk_extends].
  - repeat split; done.
Qed.

Lemma session_extends s s' : rtc (step E) s s' -> extends s s'.
Proof.
  induction 1 as [|s1 s2 s3 Hstep _ IH]; [apply extends_refl|].
  eapply extends_trans; [apply step_extends|]; eassumption.
Qed.

(** C8: whatever methods are called afterwards (and however the world
    changes in between), an entry of the region cache or of the chunk cache
    stays under its key with the same handle, and a lookup of that key
    returns this handle without touching the reader, the world or the
    trace. *)
Theorem cache_entries_stable s s' :
  rtc (step E) s s' ->
  (forall region_x region_z r,
      region_cache s !! (region_x, region_z) = Some r ->
      region_cache s' !! (region_x, region_z) = Some r /\
      _get_region E region_x region_z s' = (Returned (Some r), s')) /\
  (forall chunk_x chunk_z c,
      chunk_cache s !! (chunk_x, chunk_z) = Some c ->
      chunk_cache s' !! (chunk_x, chunk_z) = Some c /\
      _get_chunk E chunk_x chunk_z s' = (Returned (Some c), s')).
Proof.
  intros Hsteps. destruct (session_extends _ _ Hsteps) as (_ & Hr & Hc & _).
  split.
  - intros region_x region_z r Hin.
    assert (region_cache s' !! (region_x, region_z) = Some r)
      by (eapply lookup_weaken; eassumption).
    split; [assumption|]. by apply _get_region_hit.
  - intros chunk_x chunk_z c Hin.
    assert (chunk_cache s' !! (chunk_x, chunk_z) = Some c)
      by (eapply lookup_weaken; eassumption).
    split; [assumption|]. by apply _get_chunk_hit.
Qed.

(** *** A cached chunk lies in a cached region *)

(** A region that was resolved is in the region cache afterwards. *)
Lemma _get_region_some region_x region_z s r s1 :
  _get_region E region_x region_z s = (Returned (Some r), s1) ->
  region_cache s1 !! (region_x, region_z) = Some r.
Proof.
  intros H.
  destruct (region_cache s !! (region_x, region_z)) as [r0|] eqn:Hrc.
  - rewrite _get_region_hit with (r := r0) in H by assumption. congruence.
  - rewrite _get_region_miss in H by assumption. cbv zeta in H.
    destruct (from_file E _ (world s)) as [[r0|e] w']; [|discriminate].
    injection H as <- <-. cbn. apply lookup_insert_eq.
Qed.

Lemma chunk_in_region_weaken s s' :
  region_cache s ⊆ region_cache s' -> chunk_cache s' = chunk_cache s ->
  chunk_in_region s -> chunk_in_region s'.
Proof.
  intros Hsub Hsame Hinv chunk_x chunk_z. rewrite Hsame. intros Hc.
  destruct (Hinv _ _ Hc) as [r Hr]. exists r. eapply lookup_weaken; eassumption.
Qed.

Lemma _get_region_invariant region_x region_z :
  keeps (fun s s' => chunk_in_region s -> chunk_in_region s')
        (_get_region E region_x region_z).
Proof.
  intros s. apply chunk_in_region_weaken.
  - apply _get_region_extends.
  - apply _get_region_chunk_cache.
Qed.

Lemma _get_chunk_invariant chunk_x chunk_z :
  keeps (fun s s' => chunk_in_region s -> chunk_in_region s')
        (_get_chunk E chunk_x chunk_z).
Proof.
  intros s Hinv.
  destruct (chunk_cache s !! (chunk_x, chunk_z)) as [c|] eqn:Hcc.
  - now rewrite _get_chunk_hit with (c := c).
  - rewrite _get_chunk_miss by assumption.
    pose proof (_get_region_invariant (region_of chunk_x) (region_of chunk_z) s Hinv)
      as Hinv1.
    pose proof (_get_region_some (region_of chunk_x) (region_of chunk_z) s) as Hsome.
    destruct (_get_region E _ _ s) as [[[r|]|e] s1]; cbn in *; try assumption.
    specialize (Hsome r s1 eq_refl).
    destruct (region_get_chunk E r _ _ (world s1)) as [[c|e] w']; cbn.
    + intros cx cz. cbn. intros Hc.
      destruct (decide ((chunk_x, chunk_z) = (cx, cz))) as [[= <- <-]|Hne].
      * eauto.
      * rewrite lookup_insert_ne in Hc by assumption. now apply Hinv1.
    + exact Hinv1.
Qed.

Lemma step_invariant s s' : step E s s' -> chunk_in_region s -> chunk_in_region s'.
Proof.
  destruct 1.
  - apply keeps_get_block; [auto..|exact _get_chunk_invariant].
  - apply _get_chunk_invariant.
  - apply _get_region_invariant.
  - apply keeps_get_multiple_blocks; [auto..|exact _get_chunk_invariant].
  - apply keeps_scan_area; [auto..|exact _get_chunk_invariant].
  - auto.
Qed.

Lemma init_caches world_path w s0 :
  init E world_path w = Returned s0 ->
  region_cache s0 = ∅ /\ chunk_cache s0 = ∅ /\
  world_directory s0 = Py.os_path_join world_path "region".
Proof.
  unfold init. destruct (os_path_exists E _ w); [|discriminate].
  now intros [= <-].
Qed.

Lemma reachable_chunk_in_region s : reachable E s -> chunk_in_region s.
Proof.
  intros (world_path & w & s0 & Hinit & Hsteps).
  destruct (init_caches _ _ _ Hinit) as (_ & Hcc & _).
  assert (H0 : chunk_in_region s0).
  { intros cx cz. rewrite Hcc, lookup_empty. intros [? ?]. discriminate. }
  clear Hinit Hcc. induction Hsteps; eauto using step_invariant.
Qed.

(** *** Counting chunk decodes *)

Lemma chunk_decodes_app t1 t2 :
  chunk_decodes (t1 ++ t2) = (chunk_decodes (Region := Region) (Chunk := Chunk) t1
                              + chunk_decodes t2)%nat.
Proof. unfold chunk_decodes. now rewrite filter_app, length_app. Qed.

Lemma chunk_decodes_snoc t ev :
  chunk_decodes (Region := Region) (Chunk := Chunk) (t ++ [ev])
    = (chunk_decodes t + if is_chunk_decode ev then 1 else 0)%nat.
Proof. rewrite chunk_decodes_app. f_equal. now destruct ev. Qed.

Lemma _get_region_chunk_decodes region_x region_z s :
  chunk_decodes (trace (_get_region E region_x region_z s).2)
    = chunk_decodes (trace s).
Proof.
  destruct (region_cache s !! (region_x, region_z)) as [r|] eqn:Hrc.
  - now rewrite _get_region_hit with (r := r).
  - rewrite _get_region_miss by assumption. cbv zeta.
    destruct (from_file E _ (world s)) as [[r|e] w']; cbn -[chunk_decodes];
      rewrite chunk_decodes_snoc; cbn -[chunk_decodes]; lia.
Qed.

(** C3: two coordinates of one chunk.  If the chunk is not cached and the
    first [get_block] resolves it (so its slot is decoded, once, and the
    decode returns), then the second [get_block] makes no chunk decode and
    no region load: its only library call is the block decode on the
    cached chunk, whose answer it returns.  The two calls together make
    exactly one chunk decode. *)
Theorem same_chunk_one_decode x y z x' y' z' s c s1 :
  chunk_of x' = chunk_of x ->
  chunk_of z' = chunk_of z ->
  chunk_cache s !! (chunk_of x, chunk_of z) = None ->
  _get_chunk E (chunk_of x) (chunk_of z) s = (Returned (Some c), s1) ->
  let first := get_block E x y z s in
  let second := get_block E x' y' z' first.2 in
  chunk_decodes (trace first.2) = S (chunk_decodes (trace s)) /\
  chunk_cache first.2 !! (chunk_of x, chunk_of z) = Some c /\
  trace second.2 = trace first.2 ++ [EvGetBlock c (block_of x') y' (block_of z')] /\
  chunk_decodes (trace second.2) = S (chunk_decodes (trace s)) /\
  second.1 =
    match (chunk_get_block E c (block_of x') y' (block_of z') (world first.2)).1 with
    | Returned b => Returned (block_id E b)
    | Raised _ => Returned "minecraft:air"
    end.
Proof.
  intros Hx Hz Hcc Hchunk first second.
  (* what the first call leaves behind *)
  assert (Hs1 : chunk_cache s1 !! (chunk_of x, chunk_of z) = Some c /\
                chunk_decodes (trace s1) = S (chunk_decodes (trace s))).
  { rewrite _get_chunk_miss in Hchunk by assumption.
    pose proof (_get_region_chunk_decodes (region_of (chunk_of x))
                  (region_of (chunk_of z)) s) as Hcount.
    destruct (_get_region E _ _ s) as [[[r|]|e] s0]; try discriminate.
    cbv zeta in Hchunk. cbn in Hcount.
    destruct (region_get_chunk E r _ _ (world s0)) as [[c0|e] w'];
      [|discriminate].
    injection Hchunk as <- <-. cbn -[chunk_decodes].
    split; [apply lookup_insert_eq|].
    rewrite chunk_decodes_snoc. cbn -[chunk_decodes]. lia. }
  destruct Hs1 as [Hc1 Hn1].
  assert (Hfirst : chunk_cache first.2 !! (chunk_of x, chunk_of z) = Some c /\
                   chunk_decodes (trace first.2) = S (chunk_decodes (trace s))).
  { subst first. rewrite get_block_unfold, Hchunk. cbv zeta.
    destruct (chunk_get_block E c _ _ _ (world s1)) as [[b|e] w'];
      cbn -[chunk_decodes]; rewrite chunk_decodes_snoc; cbn -[chunk_decodes];
      (split; [assumption|lia]). }
  destruct Hfirst as [Hcf Hnf].
  assert (Hsecond : _get_chunk E (chunk_of x') (chunk_of z') first.2
                    = (Returned (Some c), first.2)).
  { rewrite Hx, Hz. now apply _get_chunk_hit. }
  split; [assumption|]. split; [assumption|].
  subst second. rewrite get_block_unfold, Hsecond. cbv zeta.
  destruct (chunk_get_block E c _ _ _ (world first.2)) as [[b|e] w'];
    cbn -[chunk_decodes]; rewrite chunk_decodes_snoc; cbn -[chunk_decodes]; repeat split; lia.
Qed.

(** *** Deterministic collaborators: lookups do not depend on the caches *)

Section Deterministic.

Variable O : @Oracle Region Chunk Block X.
Hypothesis E_det : deterministic E O.

(** Coherent caches on directory [dir]. *)
Let on_dir (dir : string) s : Prop := coherent O s /\ world_directory s = dir.
Let stays s s' : Prop := forall dir, on_dir dir s -> on_dir dir s'.

Lemma _get_region_det region_x region_z s :
  coherent O s ->
  (_get_region E region_x region_z s).1
    = Returned (region_at O (world_directory s) region_x region_z) /\
  stays s (_get_region E region_x region_z s).2.
Proof.
  intros Hco. destruct (region_cache s !! (region_x, region_z)) as [r|] eqn:Hrc.
  - rewrite _get_region_hit with (r := r) by assumption. cbn.
    split; [|by intros dir]. f_equal. symmetry. by apply Hco.
  - rewrite _get_region_miss by assumption. cbv zeta. unfold region_at.
    destruct E_det as (Hload & _).
    rewrite <- (Hload _ (world s)).
    destruct (from_file E _ (world s)) as [[r|e] w'] eqn:Hfile; cbn.
    + split; [reflexivity|]. intros dir [[Hr Hc] <-]. split; [|reflexivity].
      split; cbn; [|exact Hc].
      intros rx rz r' Hin.
      destruct (decide ((region_x, region_z) = (rx, rz))) as [[= <- <-]|Hne].
      * rewrite lookup_insert_eq in Hin. injection Hin as <-.
        unfold region_at. rewrite <- (Hload _ (world s)), Hfile. reflexivity.
      * rewrite lookup_insert_ne in Hin by assumption. by apply Hr.
    + split; [reflexivity|]. by intros dir [[Hr Hc] <-].
Qed.

Lemma _get_chunk_det chunk_x chunk_z s :
  coherent O s ->
  (_get_chunk E chunk_x chunk_z s).1
    = Returned (chunk_at O (world_directory s) chunk_x chunk_z) /\
  stays s (_get_chunk E chunk_x chunk_z s).2.
Proof.
  intros Hco. destruct (chunk_cache s !! (chunk_x, chunk_z)) as [c|] eqn:Hcc.
  - rewrite _get_chunk_hit with (c := c) by assumption. cbn.
    split; [|by intros dir]. f_equal. symmetry. by apply Hco.
  - rewrite _get_chunk_miss by assumption. unfold chunk_at.
    destruct (_get_region_det (region_of chunk_x) (region_of chunk_z) s Hco)
      as [Hval Hstay].
    specialize (Hstay _ (conj Hco eq_refl)).
    destruct (_get_region E _ _ s) as [o s1]. cbn [fst snd] in Hval, Hstay.
    destruct Hstay as [Hco1 Hdir1].
    subst o.
    destruct (region_at O _ _ _) as [r|] eqn:Hra;
      [|by split; [|intros dir [_ <-]]].
    destruct E_det as (_ & Hslot & _).
    rewrite <- (Hslot _ _ _ (world s1)).
    destruct (region_get_chunk E r _ _ (world s1)) as [[c|e] w'] eqn:Hdec;
      cbn [fst snd].
    + split; [reflexivity|]. intros dir [_ <-]. split; [|exact Hdir1].
      destruct Hco1 as [Hr Hc]. split; cbn; [exact Hr|].
      intros cx cz c' Hin.
      destruct (decide ((chunk_x, chunk_z) = (cx, cz))) as [[= <- <-]|Hne].
      * rewrite lookup_insert_eq in Hin. injection Hin as <-.
        unfold chunk_at. rewrite Hdir1, Hra.
        rewrite <- (Hslot _ _ _ (world s1)), Hdec. reflexivity.
      * rewrite lookup_insert_ne in Hin by assumption. by apply Hc.
    + split; [reflexivity|]. by intros dir [_ <-].
Qed.

(** [get_block] returns what the lookup without caches computes. *)
Lemma get_block_det x y z s :
  coherent O s ->
  (get_block E x y z s).1 = Returned (block_at E O (world_directory s) x y z) /\
  stays s (get_block E x y z s).2.
Proof.
  intros Hco. rewrite get_block_unfold. unfold block_at.
  destruct (_get_chunk_det (chunk_of x) (chunk_of z) s Hco) as [Hval Hstay].
  specialize (Hstay _ (conj Hco eq_refl)).
  destruct (_get_chunk E _ _ s) as [o s1]. cbn [fst snd] in Hval, Hstay.
  destruct Hstay as [Hco1 Hdir1].
  subst o.
  destruct (chunk_at O _ _ _) as [c|];
    [|by split; [|intros dir [_ <-]]].
  destruct E_det as (_ & _ & Hdecode).
  rewrite <- (Hdecode _ _ _ _ (world s1)). cbv zeta.
  destruct (chunk_get_block E c _ _ _ (world s1)) as [[b|e] w']; cbn [fst snd];
    (split; [reflexivity|]); by intros dir [_ <-].
Qed.

Lemma stays_refl s : stays s s.
Proof. by intros dir. Qed.

Lemma stays_trans s1 s2 s3 : stays s1 s2 -> stays s2 s3 -> stays s1 s3.
Proof. intros H12 H23 dir H. by apply H23, H12. Qed.

Lemma step_stays s s' : step E s s' -> coherent O s -> stays s s'.
Proof.
  assert (Hchunk : forall chunk_x chunk_z,
             keeps (fun s s' => coherent O s -> stays s s')
                   (_get_chunk E chunk_x chunk_z))
    by (intros ? ? ? ?; by apply _get_chunk_det).
  assert (Hrefl : forall s0 : State, coherent O s0 -> stays s0 s0)
    by (intros; apply stays_refl).
  assert (Htrans : forall s1 s2 s3 : State,
             (coherent O s1 -> stays s1 s2) -> (coherent O s2 -> stays s2 s3) ->
             coherent O s1 -> stays s1 s3).
  { intros s1 s2 s3 H12 H23 H1. eapply stays_trans; [by apply H12|].
    apply H23. by apply (H12 H1 _ (conj H1 eq_refl)). }
  assert (Hcall : forall (s0 : State) (w' : W) (ev : event),
             coherent O s0 ->
             stays s0 (mkState (world_directory s0) (region_cache s0)
                               (chunk_cache s0) w' (trace s0 ++ [ev])))
    by (intros ? ? ? _ dir [? <-]; by split).
  destruct 1.
  - by apply (keeps_get_block (fun s s' => coherent O s -> stays s s')).
  - apply Hchunk.
  - intros ?. by apply _get_region_det.
  - by apply (keeps_get_multiple_blocks (fun s s' => coherent O s -> stays s s')).
  - by apply (keeps_scan_area (fun s s' => coherent O s -> stays s s')).
  - intros _ dir [? <-]. by split.
Qed.

Lemma session_coherent s s' :
  rtc (step E) s s' -> coherent O s ->
  coherent O s' /\ world_directory s' = world_directory s.
Proof.
  induction 1 as [|s1 s2 s3 Hstep _ IH]; [done|].
  intros H1. destruct (step_stays _ _ Hstep H1 _ (conj H1 eq_refl)) as [H2 Hd].
  destruct (IH H2) as [H3 Hd3]. split; [assumption|congruence].
Qed.

Lemma reachable_coherent s : reachable E s -> coherent O s.
Proof.
  intros (world_path & w & s0 & Hinit & Hsteps).
  destruct (init_caches _ _ _ Hinit) as (Hrc & Hcc & _).
  apply (session_coherent _ _ Hsteps).
  split; intros ? ? ?; rewrite ?Hrc, ?Hcc, lookup_empty; discriminate.
Qed.

(** A loop whose body computes a function of the accumulator and keeps an
    invariant of the state computes the fold of that function. *)
Lemma for_each_pure {A B} (I : State -> Prop) (body : B -> A -> M B) (g : B -> A -> B) :
  (forall acc a s, I s ->
     (body acc a s).1 = Returned (g acc a) /\ I (body acc a s).2) ->
  forall l acc s, I s ->
    (for_each (X := X) l acc body s).1 = Returned (foldl g acc l) /\
    I (for_each l acc body s).2.
Proof.
  intros Hbody. induction l as [|a l IH]; intros acc s Hs; cbn; [done|].
  unfold bind. destruct (Hbody acc a s Hs) as [Hval Hinv].
  destruct (body acc a s) as [o s1]. cbn in Hval, Hinv. subst o.
  by apply IH.
Qed.

Lemma scan_area_det x1 y1 z1 x2 y2 z2 s :
  coherent O s ->
  (scan_area E x1 y1 z1 x2 y2 z2 s).1 =
    Returned
      (foldl (put (fun '(x, y, z) => solid (block_at E O (world_directory s) x y z)))
         ∅
         (voxels (Py.range (Z.min x1 x2) (Z.max x1 x2 + 1))
                 (Py.range (Z.min y1 y2) (Z.max y1 y2 + 1))
                 (Py.range (Z.min z1 z2) (Z.max z1 z2 + 1)))).
Proof.
  intros Hco. rewrite <- nested_loops_voxels. unfold scan_area.
  set (dir := world_directory s).
  eapply proj1. apply (for_each_pure (on_dir dir)); [|done].
  intros m1 x s1 Hs1. apply (for_each_pure (on_dir dir)); [|done]. clear s1 Hs1.
  intros m2 y s2 Hs2. apply (for_each_pure (on_dir dir)); [|done]. clear s2 Hs2.
  intros m3 z s3 [Hco3 Hdir3]. unfold bind.
  destruct (get_block_det x y z s3 Hco3) as [Hval Hstay].
  specialize (Hstay _ (conj Hco3 Hdir3)).
  destruct (get_block E x y z s3) as [o s4]. cbn [fst snd] in Hval, Hstay.
  subst o. rewrite Hdir3. unfold put, solid.
  by case_bool_decide.
Qed.

Lemma get_multiple_blocks_det coordinates s :
  coherent O s ->
  (get_multiple_blocks E coordinates s).1 =
    Returned
      (foldl (put (fun '(x, y, z) => Some (block_at E O (world_directory s) x y z)))
         ∅ coordinates).
Proof.
  intros Hco. unfold get_multiple_blocks.
  set (dir := world_directory s).
  eapply proj1. apply (for_each_pure (on_dir dir)); [|done].
  intros m [[x y] z] s1 [Hco1 Hdir1]. unfold bind.
  destruct (get_block_det x y z s1 Hco1) as [Hval Hstay].
  specialize (Hstay _ (conj Hco1 Hdir1)).
  destruct (get_block E x y z s1) as [o s2]. cbn [fst snd] in Hval, Hstay.
  subst o. by rewrite Hdir1.
Qed.

(** Later in the session [get_block] still answers as the lookup without
    caches does on the session's directory. *)
Lemma get_block_later x y z s s' :
  reachable E s -> rtc (step E) s s' ->
  (get_block E x y z s').1 = Returned (block_at E O (world_directory s) x y z).
Proof.
  intros Hs Hsteps.
  destruct (session_coherent _ _ Hsteps (reachable_coherent _ Hs)) as [Hco <-].
  by apply get_block_det.
Qed.

(** C4: for a deterministic collaborator, the mapping [scan_area] returns
    has, for a voxel of the inclusive box between the two corners, an
    entry exactly when the identifier [get_block] gives for the voxel (at
    any later point of the session) is none of the six air spellings, and
    the entry is that identifier; it has no entry outside the box.  A box
    of one voxel gives at most one entry, and none when the voxel is any
    kind of air. *)
Theorem scan_area_spec x1 y1 z1 x2 y2 z2 s :
  reachable E s ->
  exists blocks,
    (scan_area E x1 y1 z1 x2 y2 z2 s).1 = Returned blocks /\
    (forall x y z s',
        rtc (step E) s s' ->
        exists id,
          (get_block E x y z s').1 = Returned id /\
          (in_box x1 y1 z1 x2 y2 z2 (x, y, z) -> id ∉ air_blocks ->
           blocks !! (x, y, z) = Some id) /\
          (in_box x1 y1 z1 x2 y2 z2 (x, y, z) -> id ∈ air_blocks ->
           blocks !! (x, y, z) = None) /\
          (~ in_box x1 y1 z1 x2 y2 z2 (x, y, z) -> blocks !! (x, y, z) = None)) /\
    (x1 = x2 -> y1 = y2 -> z1 = z2 ->
     (size blocks <= 1)%nat /\
     forall s' id,
       rtc (step E) s s' ->
       (get_block E x1 y1 z1 s').1 = Returned id ->
       id ∈ air_blocks -> blocks = ∅).
Proof.
  intros Hs. pose proof (reachable_coherent _ Hs) as Hco.
  eexists. split; [by apply scan_area_det|].
  set (f := fun '(x, y, z) => solid (block_at E O (world_directory s) x y z)).
  set (vs := voxels _ _ _).
  assert (Hlook : forall x y z,
    foldl (put f) ∅ vs !! (x, y, z) =
      if decide (in_box x1 y1 z1 x2 y2 z2 (x, y, z))
      then solid (block_at E O (world_directory s) x y z) else None).
  { intros x y z. rewrite put_foldl_lookup, lookup_empty. subst vs.
    destruct (decide (in_box x1 y1 z1 x2 y2 z2 (x, y, z))) as [Hin|Hout].
    - rewrite decide_True by (by apply elem_of_box_voxels).
      cbn. by destruct (solid _).
    - rewrite decide_False; [done|]. by rewrite elem_of_box_voxels. }
  split.
  - intros x y z s' Hsteps. eexists. split; [by apply get_block_later|].
    rewrite Hlook. unfold solid.
    repeat split; intros; case_decide; try done; by case_bool_decide.
  - intros <- <- <-.
    assert (Hother : forall v, v ≠ (x1, y1, z1) -> foldl (put f) ∅ vs !! v = None).
    { intros [[x y] z] Hne. rewrite Hlook. case_decide as Hin; [|done].
      destruct Hin as (? & ? & ?). destruct Hne. f_equal; [f_equal|]; lia. }
    split.
    + destruct (foldl (put f) ∅ vs !! (x1, y1, z1)) as [b|] eqn:Hv.
      * replace (foldl (put f) ∅ vs) with ({[(x1, y1, z1) := b]} : gmap _ string);
          [by rewrite map_size_singleton|].
        apply map_eq. intros v. destruct (decide (v = (x1, y1, z1))) as [->|Hne].
        -- by rewrite lookup_singleton_eq.
        -- rewrite lookup_singleton_ne by done. symmetry. by apply Hother.
      * replace (foldl (put f) ∅ vs) with (∅ : gmap (Z * Z * Z) string);
          [rewrite map_size_empty; lia|].
        apply map_eq. intros v. rewrite lookup_empty.
        destruct (decide (v = (x1, y1, z1))) as [->|Hne]; [done|].
        symmetry. by apply Hother.
    + intros s' id Hsteps Hid Hair.
      rewrite (get_block_later _ _ _ _ _ Hs Hsteps) in Hid. injection Hid as <-.
      apply map_eq. intros v. rewrite lookup_empty.
      destruct (decide (v = (x1, y1, z1))) as [->|Hne]; [|by apply Hother].
      rewrite Hlook. case_decide; [|done]. unfold solid. by case_bool_decide.
Qed.

(** C5: for a deterministic collaborator, [scan_area] returns the same
    mapping whichever way round its two corners are given, also when the
    second scan runs later in the session; more generally the mapping is
    determined by the least and greatest coordinate on each axis.  From one
    and the same state the two calls agree in everything, final state
    included. *)
Theorem scan_area_corner_order x1 y1 z1 x2 y2 z2 s s' :
  reachable E s ->
  rtc (step E) s s' ->
  (scan_area E x1 y1 z1 x2 y2 z2 s).1 = (scan_area E x2 y2 z2 x1 y1 z1 s').1 /\
  scan_area E x1 y1 z1 x2 y2 z2 s = scan_area E x2 y2 z2 x1 y1 z1 s /\
  forall a1 b1 d1 a2 b2 d2 : Z,
    Z.min a1 a2 = Z.min x1 x2 -> Z.max a1 a2 = Z.max x1 x2 ->
    Z.min b1 b2 = Z.min y1 y2 -> Z.max b1 b2 = Z.max y1 y2 ->
    Z.min d1 d2 = Z.min z1 z2 -> Z.max d1 d2 = Z.max z1 z2 ->
    (scan_area E a1 b1 d1 a2 b2 d2 s').1 = (scan_area E x1 y1 z1 x2 y2 z2 s).1.
Proof.
  intros Hs Hsteps. pose proof (reachable_coherent _ Hs) as Hco.
  destruct (session_coherent _ _ Hsteps Hco) as [Hco' Hdir].
  assert (Hgen : forall a1 b1 d1 a2 b2 d2 : Z,
    Z.min a1 a2 = Z.min x1 x2 -> Z.max a1 a2 = Z.max x1 x2 ->
    Z.min b1 b2 = Z.min y1 y2 -> Z.max b1 b2 = Z.max y1 y2 ->
    Z.min d1 d2 = Z.min z1 z2 -> Z.max d1 d2 = Z.max z1 z2 ->
    (scan_area E a1 b1 d1 a2 b2 d2 s').1 = (scan_area E x1 y1 z1 x2 y2 z2 s).1).
  { intros a1 b1 d1 a2 b2 d2 Hx Hx' Hy Hy' Hz Hz'.
    rewrite !scan_area_det by assumption.
    by rewrite Hx, Hx', Hy, Hy', Hz, Hz', Hdir. }
  split; [|split; [|exact Hgen]].
  - symmetry. apply Hgen; lia.
  - unfold scan_area.
    by rewrite (Z.min_comm x1 x2), (Z.max_comm x1 x2), (Z.min_comm y1 y2),
      (Z.max_comm y1 y2), (Z.min_comm z1 z2), (Z.max_comm z1 z2).
Qed.

End Deterministic.

(** *** get_multiple_blocks *)

(** Whatever the collaborator does, every input coordinate becomes a key,
    and nothing else does. *)
Lemma get_multiple_blocks_keys coordinates s :
  exists results,
    (get_multiple_blocks E coordinates s).1 = Returned results /\
    dom results = list_to_set coordinates.
Proof.
  unfold get_multiple_blocks.
  enough (Hgen : forall (acc : gmap (Z * Z * Z) string) s,
    exists results,
      (for_each coordinates acc (fun results '(x, y, z) =>
         bind (get_block E x y z)
              (fun block => ret (<[(x, y, z) := block]> results))) s).1
        = Returned results /\
      dom results = dom acc ∪ list_to_set coordinates).
  { destruct (Hgen ∅ s) as (results & Hval & Hdom). exists results.
    split; [exact Hval|]. by rewrite Hdom, dom_empty_L, (left_id_L ∅ (∪)). }
  induction coordinates as [|[[x y] z] l IH]; intros acc s0; cbn.
  - exists acc. split; [done|]. by rewrite (right_id_L ∅ (∪)).
  - unfold bind at 1 2.
    destruct (get_block_returns x y z s0) as (v & Hv).
    destruct (get_block E x y z s0) as [o s1]. cbn in Hv. subst o. cbn.
    destruct (IH (<[(x, y, z) := v]> acc) s1) as (results & Hval & Hdom).
    exists results. split; [exact Hval|]. rewrite Hdom, dom_insert_L.
    by rewrite (comm_L (∪) {[(x, y, z)]} (dom acc)), (assoc_L (∪)).
Qed.

(** C6: [get_multiple_blocks] returns a mapping whose keys are exactly
    the coordinates of the input list, a repeated coordinate counting once
    (so the list [(0,0,0); (0,0,0)] gives one entry); nothing is filtered
    out.  For a deterministic collaborator each key is mapped to what
    [get_block] returns for that coordinate, at any point of the session. *)
Theorem get_multiple_blocks_spec coordinates s :
  exists results,
    (get_multiple_blocks E coordinates s).1 = Returned results /\
    dom results = list_to_set coordinates /\
    (coordinates = [(0, 0, 0); (0, 0, 0)] -> size results = 1%nat) /\
    forall O,
      deterministic E O -> reachable E s ->
      forall x y z s',
        (x, y, z) ∈ coordinates ->
        rtc (step E) s s' ->
        exists id,
          (get_block E x y z s').1 = Returned id /\
          results !! (x, y, z) = Some id.
Proof.
  destruct (get_multiple_blocks_keys coordinates s) as (results & Hval & Hdom).
  exists results. split; [exact Hval|]. split; [exact Hdom|]. split.
  - intros ->. rewrite <- size_dom, Hdom. cbn.
    rewrite (right_id_L ∅ (∪)), (idemp_L (∪)). apply size_singleton.
  - intros O HO Hs x y z s' Hin Hsteps.
    exists (block_at E O (world_directory s) x y z).
    split; [by apply get_block_later|].
    rewrite (get_multiple_blocks_det O HO) in Hval
      by (by apply reachable_coherent).
    injection Hval as <-.
    rewrite put_foldl_lookup. by rewrite decide_True.
Qed.

End ReaderFacts.

(** C9: in every state a session can reach from a freshly constructed
    reader, each chunk of the chunk cache has its region, at the chunk
    coordinates floor-divided by 32, in the region cache.  The converse
    fails: with the stub, looking up a voxel of chunk (1,0) loads region
    (0,0) and then fails to decode the slot, which leaves a cached region
    and an empty chunk cache. *)
Theorem cached_chunk_has_region :
  (forall (W Region Chunk Block X : Type) (E : @Env W Region Chunk Block X) s,
      reachable E s ->
      forall chunk_x chunk_z,
        is_Some (chunk_cache s !! (chunk_x, chunk_z)) ->
        is_Some (region_cache s !! (chunk_x `div` 32, chunk_z `div` 32))) /\
  (exists s,
      reachable Stub.env s /\
      region_cache s !! (0, 0) = Some tt /\
      chunk_cache s = ∅).
Proof.
  split.
  - intros W Region Chunk Block X E s Hs chunk_x chunk_z.
    apply (reachable_chunk_in_region E s Hs).
  - exists (get_block Stub.env 16 64 0 Stub.fresh).2. split; [|by vm_compute].
    exists "saves", O, Stub.fresh. split; [reflexivity|].
    apply rtc_once, step_get_block.
Qed.

(** ** The theorems at work on the stub *)

Lemma stub_deterministic : deterministic Stub.env Stub.oracle.
Proof.
  repeat split.
  - intros p w. cbn. by destruct (String.eqb p _).
  - intros r lx lz w. cbn. by destruct ((lx =? 0) && (lz =? 0)).
  - intros c bx y bz w. cbn.
    destruct (y <? 0); [done|].
    destruct ((bx =? 5) && (y =? 64) && (bz =? 5)); [done|].
    by destruct ((bx =? 4) && (y =? 63) && (bz =? 4)).
Qed.

Lemma stub_fresh_reachable : reachable Stub.env Stub.fresh.
Proof. exists "saves", O, Stub.fresh. split; [reflexivity|apply rtc_refl]. Defined.

Example stub_lookups :
  (get_block Stub.env 5 64 5 Stub.fresh).1 = Returned "stone" /\
  (get_block Stub.env 5 (-1) 5 Stub.fresh).1 = Returned "minecraft:air" /\
  (get_block Stub.env (-1) 64 (-1) Stub.fresh).1 = Returned "minecraft:air" /\
  trace (get_block Stub.env (-1) 64 (-1) Stub.fresh).2
    = [EvFromFile "saves/region/r.-1.-1.mca"] /\
  (scan_area Stub.env 5 64 5 4 63 4 Stub.fresh).1
    = Returned {[ (5, 64, 5) := "stone" ]} /\
  (get_multiple_blocks Stub.env [(0, 0, 0); (0, 0, 0)] Stub.fresh).1
    = Returned {[ (0, 0, 0) := "air" ]}.
Proof. repeat split; by vm_compute. Qed.

Lemma same_chunk_one_decode_witness :
  let first := get_block Stub.env 5 64 5 Stub.fresh in
  let second := get_block Stub.env 4 63 4 first.2 in
  chunk_decodes (trace second.2) = 1%nat /\
  world second.2 = 1%nat /\
  second.1 = Returned "cave_air".
Proof.
  pose proof (same_chunk_one_decode Stub.env 5 64 5 4 63 4 Stub.fresh tt
                (_get_chunk Stub.env 0 0 Stub.fresh).2
                eq_refl eq_refl eq_refl eq_refl) as (_ & _ & _ & Hcount & Hval).
  split; [exact Hcount|]. split; [reflexivity|]. exact Hval.
Defined.

Lemma scan_area_spec_witness :
  exists blocks,
    (scan_area Stub.env 4 63 4 5 64 5 Stub.fresh).1 = Returned blocks /\
    blocks !! (5, 64, 5) = Some "stone" /\
    blocks !! (4, 63, 4) = None /\
    blocks !! (6, 64, 5) = None.
Proof.
  destruct (scan_area_spec Stub.env Stub.oracle stub_deterministic
              4 63 4 5 64 5 Stub.fresh stub_fresh_reachable)
    as (blocks & Hval & Hvoxel & _).
  exists blocks. split; [exact Hval|].
  destruct (Hvoxel 5 64 5 Stub.fresh (rtc_refl _ _)) as (id1 & Hid1 & Hin1 & _).
  destruct (Hvoxel 4 63 4 Stub.fresh (rtc_refl _ _)) as (id2 & Hid2 & _ & Hair2 & _).
  destruct (Hvoxel 6 64 5 Stub.fresh (rtc_refl _ _)) as (id3 & _ & _ & _ & Hout3).
  injection Hid1 as <-. injection Hid2 as <-.
  split; [|split].
  - apply Hin1; [cbn; lia|]. intros Hair. vm_compute in Hair. discriminate.
  - apply Hair2; [cbn; lia|]. by vm_compute.
  - apply Hout3. cbn. lia.
Defined.

Lemma scan_area_corner_order_witness :
  (scan_area Stub.env 4 63 4 5 64 5 Stub.fresh).1 =
  (scan_area Stub.env 5 64 5 4 63 4
     (scan_area Stub.env 4 63 4 5 64 5 Stub.fresh).2).1.
Proof.
  exact (proj1 (scan_area_corner_order Stub.env Stub.oracle stub_deterministic
                  4 63 4 5 64 5 Stub.fresh _ stub_fresh_reachable
                  (rtc_once _ _ (step_scan_area Stub.env Stub.fresh 4 63 4 5 64 5)))).
Defined.

Lemma chunk_failure_not_cached_witness :
  (_get_chunk Stub.env 1 0 Stub.fresh).1 = Returned None /\
  chunk_cache (_get_chunk Stub.env 1 0 Stub.fresh).2 !! (1, 0) = None /\
  region_cache (_get_chunk Stub.env 1 0 Stub.fresh).2 !! (0, 0) = Some tt.
Proof.
  split; [reflexivity|]. split; [|reflexivity].
  exact (proj1 (proj2 (chunk_failure_not_cached Stub.env 1 0 Stub.fresh eq_refl))).
Defined.

Lemma cache_entries_stable_witness :
  let s := (get_block Stub.env 5 64 5 Stub.fresh).2 in
  let s' := (scan_area Stub.env 0 60 0 20 61 0 s).2 in
  chunk_cache s' !! (0, 0) = Some tt /\
  _get_chunk Stub.env 0 0 s' = (Returned (Some tt), s').
Proof.
  intros s s'.
  apply (proj2 (cache_entries_stable Stub.env s s'
                  (rtc_once _ _ (step_scan_area Stub.env s 0 60 0 20 61 0)))).
  reflexivity.
Defined.

Lemma region_failure_not_cached_witness :
  (_get_region Stub.env (-1) 0 Stub.fresh).1 = Returned None /\
  region_cache (_get_region Stub.env (-1) 0 Stub.fresh).2 = ∅ /\
  trace (_get_region Stub.env (-1) 0 (_get_region Stub.env (-1) 0 Stub.fresh).2).2
    = [EvFromFile "saves/region/r.-1.0.mca"; EvFromFile "saves/region/r.-1.0.mca"].
Proof.
  destruct (region_failure_not_cached Stub.env (-1) 0 Stub.fresh (LibraryError tt)
              eq_refl eq_refl) as (Hnone & Hsame & _ & _ & Hretry).
  split; [exact Hnone|]. split; [exact Hsame|].
  exact (proj1 (Hretry 0%nat)).
Defined.

(** ** From world coordinate to region file *)

(** X2: the two levels of decomposition together.  A world coordinate is
    512 times its region coordinate plus 16 times its slot plus its block
    offset, with the slot in [0, 32) and the offset in [0, 16); the region
    coordinate is the floor of the coordinate divided by 512.  In
    particular a negative coordinate lands in a negative region with
    non-negative slot and offset. *)
Theorem world_to_region (x : Z) :
  x = region_of (chunk_of x) * 512 + slot_of (chunk_of x) * 16 + block_of x /\
  0 <= slot_of (chunk_of x) < 32 /\
  0 <= block_of x < 16 /\
  region_of (chunk_of x) = x `div` 512.
Proof.
  assert (Hx : chunk_of x * 16 + block_of x = x /\ 0 <= block_of x < 16).
  { rewrite chunk_of_div, block_of_mod.
    pose proof (Z.div_mod x 16 ltac:(lia)).
    pose proof (Z.mod_pos_bound x 16 ltac:(lia)). lia. }
  destruct Hx as (Hx & Hb).
  destruct (region_slot_recompose (chunk_of x)) as (Hc & Hs).
  repeat split; try lia.
  unfold region_of. rewrite chunk_of_div, Z.div_div by lia. reflexivity.
Qed.

(** *** Region files and region coordinates *)

Lemma pretty_N_go_chars (n : N) (s : string) :
  chars_in is_int_char s = true -> chars_in is_int_char (pretty_N_go n s) = true.
Proof.
  revert s. induction (N.lt_wf_0 n) as [n _ IH]; intros s Hs.
  destruct (decide (n = 0)%N) as [->|Hn]; [by rewrite pretty_N_go_0|].
  rewrite pretty_N_go_step by lia.
  apply IH; [apply N.div_lt; lia|]. cbn. rewrite Hs, andb_true_r.
  unfold pretty_N_char. by repeat case_match.
Qed.

Lemma str_of_int_chars (n : Z) : chars_in is_int_char (Py.str_of_int n) = true.
Proof.
  assert (HN : forall m : N, chars_in is_int_char (pretty m) = true).
  { intros m. unfold pretty, pretty_N. case_decide; [done|].
    by apply pretty_N_go_chars. }
  unfold Py.str_of_int, pretty, pretty_Z. destruct n as [|p|p]; [done|apply HN|].
  cbn. apply HN.
Qed.

(** A separator that occurs in neither field splits a string in one way
    only. *)
Lemma split_at_separator (p : ascii -> bool) (sep : ascii) (a a' r r' : string) :
  p sep = false -> chars_in p a = true -> chars_in p a' = true ->
  a +:+ String sep r = a' +:+ String sep r' -> a = a' /\ r = r'.
Proof.
  intros Hsep. revert a'. induction a as [|c a IH]; intros [|c' a'] Ha Ha' Heq;
    cbn in *.
  - by injection Heq as ->.
  - injection Heq as <- _. apply andb_prop in Ha' as [Hc _]. congruence.
  - injection Heq as -> _. apply andb_prop in Ha as [Hc _]. congruence.
  - injection Heq as <- Heq.
    apply andb_prop in Ha as [_ Ha]. apply andb_prop in Ha' as [_ Ha'].
    destruct (IH a' Ha Ha' Heq) as [-> ->]. done.
Qed.

(** With a relative second part, [os.path.join] only puts something that
    depends on the first part in front of the second. *)
Lemma os_path_join_relative (a b : string) :
  Py.startswith_sep b = false ->
  Py.os_path_join a b =
    (if (match a with EmptyString => true | _ => false end) || Py.endswith_sep a
     then a else a +:+ "/") +:+ b.
Proof.
  intros Hb. unfold Py.os_path_join. rewrite Hb.
  destruct (_ || _); [done|].
  clear Hb. induction a as [|c a IH]; [done|].
  change (String c (a +:+ "/" +:+ b) = String c ((a +:+ "/") +:+ b)).
  by rewrite IH.
Qed.

(** X1: for one reader directory, two region coordinates name the same
    region file exactly when they are the same coordinates: the file name
    [r.<x>.<z>.mca] determines both integers, negative ones included. *)
Theorem region_file_inj (dir : string) (region_x region_z region_x' region_z' : Z) :
  region_file dir region_x region_z = region_file dir region_x' region_z'
  <-> region_x = region_x' /\ region_z = region_z'.
Proof.
  split; [|by intros [-> ->]].
  unfold region_file. rewrite !os_path_join_relative by done.
  intros Heq. apply (inj (String.app _)) in Heq. cbn in Heq.
  injection Heq as Heq.
  assert (Hdot : is_int_char "." = false) by done.
  apply (split_at_separator is_int_char "."%char) in Heq
    as [Hx Heq]; [|done|apply str_of_int_chars..].
  apply (split_at_separator is_int_char "."%char) in Heq
    as [Hz _]; [|done|apply str_of_int_chars..].
  split; by apply (inj pretty).
Qed.

(** *** The voxels of a box, in scan order *)

Lemma StronglySorted_seq_lt (a n : nat) : StronglySorted lt (seq a n).
Proof.
  revert a. induction n as [|n IH]; intros a; cbn; constructor; [apply IH|].
  apply Forall_forall. intros b Hb. apply elem_of_seq in Hb. lia.
Qed.

Lemma StronglySorted_range (lo hi : Z) : StronglySorted Z.lt (Py.range lo hi).
Proof.
  unfold Py.range, seqZ.
  eapply StronglySorted_fmap; [|apply StronglySorted_seq_lt].
  intros a b Hab. cbn. lia.
Qed.

Lemma StronglySorted_bind {A B} (R1 : relation A) (R2 : relation B)
    (f : A -> list B) (l : list A) :
  (forall a a' b b', R1 a a' -> b ∈ f a -> b' ∈ f a' -> R2 b b') ->
  (forall a, a ∈ l -> StronglySorted R2 (f a)) ->
  StronglySorted R1 l -> StronglySorted R2 (l ≫= f).
Proof.
  intros Hcross Hin Hl. induction Hl as [|a l Hl IH Hall]; [constructor|].
  rewrite bind_cons. apply StronglySorted_app_2.
  - intros b b' Hb Hb'. apply list_elem_of_bind in Hb' as (a' & Hb' & Ha').
    rewrite Forall_forall in Hall. eapply Hcross; [by apply Hall|done..].
  - apply Hin. by left.
  - apply IH. intros a' Ha'. apply Hin. by right.
Qed.

Lemma StronglySorted_voxels (xs ys zs : list Z) :
  StronglySorted Z.lt xs -> StronglySorted Z.lt ys -> StronglySorted Z.lt zs ->
  StronglySorted voxel_lt (voxels xs ys zs).
Proof.
  intros Hxs Hys Hzs. unfold voxels.
  apply (StronglySorted_bind Z.lt); [| |done].
  { intros x x' [[a b] c] [[a' b'] c'] Hlt Hv Hv'.
    apply list_elem_of_bind in Hv as (y & Hv & _).
    apply list_elem_of_bind in Hv as (z & Hv & _).
    apply list_elem_of_singleton in Hv.
    apply list_elem_of_bind in Hv' as (y' & Hv' & _).
    apply list_elem_of_bind in Hv' as (z' & Hv' & _).
    apply list_elem_of_singleton in Hv'. simplify_eq. by left. }
  intros x _. apply (StronglySorted_bind Z.lt); [| |done].
  { intros y y' [[a b] c] [[a' b'] c'] Hlt Hv Hv'.
    apply list_elem_of_bind in Hv as (z & Hv & _).
    apply list_elem_of_singleton in Hv.
    apply list_elem_of_bind in Hv' as (z' & Hv' & _).
    apply list_elem_of_singleton in Hv'. simplify_eq. right. split; [done|by left]. }
  intros y _. apply (StronglySorted_bind Z.lt); [| |done].
  { intros z z' [[a b] c] [[a' b'] c'] Hlt Hv Hv'.
    apply list_elem_of_singleton in Hv. apply list_elem_of_singleton in Hv'.
    simplify_eq. right. split; [done|]. right. by split. }
  intros z _. repeat constructor.
Qed.

Lemma voxel_lt_irrefl (v : Z * Z * Z) : ~ voxel_lt v v.
Proof. destruct v as [[x y] z]. cbn. lia. Qed.

Lemma StronglySorted_NoDup {A} (R : relation A) (l : list A) :
  (forall a, ~ R a a) -> StronglySorted R l -> NoDup l.
Proof.
  intros Hirr. induction 1 as [|a l _ IH Hall]; constructor; [|done].
  intros Hin. rewrite Forall_forall in Hall. by apply (Hirr a), Hall.
Qed.

Lemma length_voxels (xs ys zs : list Z) :
  length (voxels xs ys zs) = (length xs * length ys * length zs)%nat.
Proof.
  unfold voxels.
  assert (Hz : forall x y : Z, length (zs ≫= fun z => [(x, y, z)]) = length zs).
  { intros x y. induction zs as [|z zs IH]; [done|].
    rewrite bind_cons, length_app, IH. done. }
  assert (Hy : forall x : Z,
             length (ys ≫= fun y => zs ≫= fun z => [(x, y, z)])
             = (length ys * length zs)%nat).
  { intros x. induction ys as [|y ys IH]; [done|].
    rewrite bind_cons, length_app, IH, Hz. cbn. lia. }
  induction xs as [|x xs IH]; [done|].
  rewrite bind_cons, length_app, IH, Hy. cbn. lia.
Qed.

Lemma length_range_box (a b : Z) :
  length (Py.range (Z.min a b) (Z.max a b + 1)) = Z.to_nat (Z.abs (a - b) + 1).
Proof. unfold Py.range. rewrite length_seqZ. f_equal. lia. Qed.

Section ReaderExtra.

Context {W Region Chunk Block X : Type}.
Variable E : @Env W Region Chunk Block X.

Local Abbreviation State := (@State W Region Chunk).
Local Abbreviation event := (@event Region Chunk).

Implicit Types (s : State) (r : Region) (c : Chunk) (ev : event).

(** *** What a resolver returns is what its cache holds afterwards *)

(** X3: after [_get_region] or [_get_chunk] has run, its answer and the
    entry of its cache under the key it was asked for are the same thing:
    a handle is returned exactly when it is then cached under that key,
    and [None] exactly when the key is then absent. *)
Theorem resolver_answer_is_cache_entry k1 k2 s :
  (_get_region E k1 k2 s).1
    = Returned (region_cache (_get_region E k1 k2 s).2 !! (k1, k2)) /\
  (_get_chunk E k1 k2 s).1
    = Returned (chunk_cache (_get_chunk E k1 k2 s).2 !! (k1, k2)).
Proof.
  split.
  - destruct (region_cache s !! (k1, k2)) as [r|] eqn:Hrc.
    + rewrite _get_region_hit with (r := r) by assumption. cbn. by rewrite Hrc.
    + rewrite _get_region_miss by assumption. cbv zeta.
      destruct (from_file E _ (world s)) as [[r|e] w']; cbn.
      * by rewrite lookup_insert_eq.
      * by rewrite Hrc.
  - destruct (chunk_cache s !! (k1, k2)) as [c|] eqn:Hcc.
    + rewrite _get_chunk_hit with (c := c) by assumption. cbn. by rewrite Hcc.
    + rewrite _get_chunk_miss by assumption.
      pose proof (_get_region_chunk_cache E (region_of k1) (region_of k2) s) as Hsame.
      destruct (_get_region_returns E (region_of k1) (region_of k2) s) as [o Ho].
      destruct (_get_region E _ _ s) as [o' s1]. cbn in Hsame, Ho. subst o'.
      destruct o as [r|]; cbn; [|by rewrite Hsame, Hcc].
      destruct (region_get_chunk E r _ _ (world s1)) as [[c|e] w']; cbn.
      * by rewrite lookup_insert_eq.
      * by rewrite Hsame, Hcc.
Qed.

(** A chunk that was resolved is in the chunk cache afterwards. *)
Lemma _get_chunk_some chunk_x chunk_z s c s1 :
  _get_chunk E chunk_x chunk_z s = (Returned (Some c), s1) ->
  chunk_cache s1 !! (chunk_x, chunk_z) = Some c.
Proof.
  intros H.
  destruct (chunk_cache s !! (chunk_x, chunk_z)) as [c0|] eqn:Hcc.
  - rewrite _get_chunk_hit with (c := c0) in H by assumption. congruence.
  - rewrite _get_chunk_miss in H by assumption.
    destruct (_get_region E _ _ s) as [[[r|]|e] s0]; try discriminate.
    cbv zeta in H.
    destruct (region_get_chunk E r _ _ (world s0)) as [[c0|e] w'];
      [|discriminate].
    injection H as <- <-. cbn. apply lookup_insert_eq.
Qed.

(** *** Every library call honours the library's contract *)

Lemma well_formed_event_extends s s' ev :
  extends s s' -> well_formed_event s ev -> well_formed_event s' ev.
Proof.
  intros (Hd & Hr & Hc & _). destruct ev as [path|r lx lz|c bx y bz]; cbn.
  - rewrite Hd. done.
  - intros (cx & cz & -> & -> & Hin). exists cx, cz.
    repeat split. eapply lookup_weaken; eassumption.
  - intros (x & z & -> & -> & Hin). exists x, z.
    repeat split. eapply lookup_weaken; eassumption.
Qed.

Lemma adds_calls_refl s : adds_calls s s.
Proof.
  split; [apply extends_refl|]. exists []. by rewrite app_nil_r.
Qed.

Lemma adds_calls_trans s1 s2 s3 :
  adds_calls s1 s2 -> adds_calls s2 s3 -> adds_calls s1 s3.
Proof.
  intros (H12 & evs1 & Ht1 & Hwf1) (H23 & evs2 & Ht2 & Hwf2).
  split; [by eapply extends_trans|].
  exists (evs1 ++ evs2). split; [by rewrite Ht2, Ht1, app_assoc|].
  apply Forall_app. split; [|done].
  eapply Forall_impl; [exact Hwf1|]. intros ev. by apply well_formed_event_extends.
Qed.

(** One call, well formed in the state it leaves. *)
Lemma adds_calls_one s s' ev :
  extends s s' -> trace s' = trace s ++ [ev] -> well_formed_event s' ev ->
  adds_calls s s'.
Proof. intros Hext Ht Hwf. split; [done|]. exists [ev]. by repeat constructor. Qed.

Lemma _get_region_adds_calls region_x region_z :
  keeps adds_calls (_get_region E region_x region_z).
Proof.
  intros s. pose proof (_get_region_extends E region_x region_z s) as Hext.
  destruct (region_cache s !! (region_x, region_z)) as [r|] eqn:Hrc.
  - rewrite _get_region_hit with (r := r) by assumption. apply adds_calls_refl.
  - rewrite _get_region_miss in Hext |- * by assumption. cbv zeta in Hext |- *.
    destruct (from_file E _ (world s)) as [[r|e] w'];
      (eapply adds_calls_one; [exact Hext|reflexivity|]); cbn; eauto.
Qed.

Lemma _get_chunk_adds_calls chunk_x chunk_z :
  keeps adds_calls (_get_chunk E chunk_x chunk_z).
Proof.
  intros s.
  destruct (chunk_cache s !! (chunk_x, chunk_z)) as [c|] eqn:Hcc.
  - rewrite _get_chunk_hit with (c := c) by assumption. apply adds_calls_refl.
  - rewrite _get_chunk_miss by assumption.
    pose proof (_get_region_adds_calls (region_of chunk_x) (region_of chunk_z) s)
      as Hreg.
    pose proof (_get_region_some E (region_of chunk_x) (region_of chunk_z) s)
      as Hsome.
    pose proof (_get_region_chunk_cache E (region_of chunk_x) (region_of chunk_z) s)
      as Hsame.
    destruct (_get_region E _ _ s) as [[[r|]|e] s1]; cbn [snd] in *;
      try assumption.
    specialize (Hsome r s1 eq_refl).
    eapply adds_calls_trans; [exact Hreg|]. cbv zeta.
    assert (Hcc1 : chunk_cache s1 !! (chunk_x, chunk_z) = None) by congruence.
    destruct (region_get_chunk E r _ _ (world s1)) as [[c|e] w'].
    + eapply adds_calls_one; [|reflexivity|].
      * repeat split; cbn; [done|by apply insert_subseteq|by apply prefix_app_r].
      * exists chunk_x, chunk_z. by repeat split.
    + eapply adds_calls_one; [apply extends_call|reflexivity|].
      exists chunk_x, chunk_z. by repeat split.
Qed.

Lemma get_block_adds_calls x y z : keeps adds_calls (get_block E x y z).
Proof.
  intros s. rewrite get_block_unfold.
  pose proof (_get_chunk_adds_calls (chunk_of x) (chunk_of z) s) as Hchunk.
  pose proof (_get_chunk_some (chunk_of x) (chunk_of z) s) as Hsome.
  destruct (_get_chunk E _ _ s) as [[[c|]|e] s1]; cbn [snd] in *;
    try assumption.
  specialize (Hsome c s1 eq_refl).
  eapply adds_calls_trans; [exact Hchunk|]. cbv zeta.
  destruct (chunk_get_block E c _ _ _ (world s1)) as [[b|e] w'];
    (eapply adds_calls_one; [apply extends_call|reflexivity|]);
    exists x, z; by repeat split.
Qed.

Lemma step_adds_calls s s' : step E s s' -> adds_calls s s'.
Proof.
  destruct 1.
  - apply get_block_adds_calls.
  - apply _get_chunk_adds_calls.
  - apply _get_region_adds_calls.
  - unfold get_multiple_blocks.
    apply keeps_for_each; [exact adds_calls_refl|exact adds_calls_trans|].
    intros acc [[x y] z].
    apply keeps_bind; [exact adds_calls_trans|apply get_block_adds_calls|].
    intros b. apply keeps_ret. exact adds_calls_refl.
  - unfold scan_area.
    apply keeps_for_each; [exact adds_calls_refl|exact adds_calls_trans|intros ? x].
    apply keeps_for_each; [exact adds_calls_refl|exact adds_calls_trans|intros ? y].
    apply keeps_for_each; [exact adds_calls_refl|exact adds_calls_trans|intros ? z].
    apply keeps_bind; [exact adds_calls_trans|apply get_block_adds_calls|].
    intros b. case_bool_decide; apply keeps_ret; exact adds_calls_refl.
  - split; [repeat split; done|]. exists []. by rewrite app_nil_r.
Qed.

(** X5: at every point of a session, every call the reader has made to
    the library so far was within the library's contract: each load named
    a region file of the reader's directory; each chunk decode asked a
    region for the slot (in [0,32) on both axes) of a chunk whose region
    coordinates are the key under which that region is cached; each block
    decode asked a chunk for offsets (in [0,16) on both axes) of a voxel
    whose chunk coordinates are the key under which that chunk is cached. *)
Theorem library_calls_well_formed s :
  reachable E s ->
  Forall (well_formed_event s) (trace s) /\
  forall ev, ev ∈ trace s ->
    match ev with
    | EvFromFile _ => True
    | EvGetChunk _ lx lz => 0 <= lx < 32 /\ 0 <= lz < 32
    | EvGetBlock _ bx _ bz => 0 <= bx < 16 /\ 0 <= bz < 16
    end.
Proof.
  intros (world_path & w & s0 & Hinit & Hsteps).
  assert (Hwf : Forall (well_formed_event s) (trace s)).
  { assert (H0 : trace s0 = []).
    { unfold init in Hinit. destruct (os_path_exists E _ w); [|discriminate].
      by injection Hinit as <-. }
    assert (Hadds : adds_calls s0 s).
    { clear Hinit H0. induction Hsteps as [|s1 s2 s3 Hstep _ IH];
        [apply adds_calls_refl|].
      eapply adds_calls_trans; [by apply step_adds_calls|exact IH]. }
    destruct Hadds as (_ & evs & Ht & Hevs). by rewrite Ht, H0. }
  split; [exact Hwf|].
  intros ev Hin. rewrite Forall_forall in Hwf. specialize (Hwf ev Hin).
  destruct ev as [path|r lx lz|c bx y bz]; [done|..].
  - destruct Hwf as (cx & cz & -> & -> & _).
    pose proof (region_slot_recompose cx). pose proof (region_slot_recompose cz).
    lia.
  - destruct Hwf as (x & z & -> & -> & _).
    rewrite !block_of_mod.
    pose proof (Z.mod_pos_bound x 16 ltac:(lia)).
    pose proof (Z.mod_pos_bound z 16 ltac:(lia)). lia.
Qed.

(** *** The calls of one lookup *)

Lemma dom_insert_grow {V} (m : gmap (Z * Z) V) k v :
  dom (<[k := v]> m) ⊆ dom m ∪ {[k]}.
Proof. by rewrite dom_insert_L, (comm_L (∪)). Qed.


Lemma lookup_calls_length path lx lz bx y bz (evs : list event) :
  lookup_calls path lx lz bx y bz evs -> (1 <= length evs <= 3)%nat.
Proof. destruct 1; cbn; lia. Qed.


(** *** The nested loops as one loop *)

Lemma for_each_app {A B} (body : B -> A -> M B) (l1 l2 : list A) acc s :
  for_each (X := X) (l1 ++ l2) acc body s
  = bind (for_each l1 acc body) (fun acc' => for_each l2 acc' body) s.
Proof.
  revert acc s. induction l1 as [|a l1 IH]; intros acc s; [reflexivity|].
  cbn. unfold bind. destruct (body acc a s) as [[acc'|e] s1]; [|done].
  rewrite IH. reflexivity.
Qed.

Lemma for_each_ext {A B} (body1 body2 : B -> A -> M B) (l : list A) acc s :
  (forall acc a s, body1 acc a s = body2 acc a s) ->
  for_each (X := X) l acc body1 s = for_each l acc body2 s.
Proof.
  intros Hbody. revert acc s. induction l as [|a l IH]; intros acc s; cbn; [done|].
  unfold bind. rewrite Hbody. destruct (body2 acc a s) as [[acc'|e] s1]; [|done].
  apply IH.
Qed.

Lemma for_each_bind_list {A B C} (body : C -> B -> M C) (h : A -> list B)
    (l : list A) acc s :
  for_each (X := X) (l ≫= h) acc body s
  = for_each l acc (fun acc a => for_each (h a) acc body) s.
Proof.
  revert acc s. induction l as [|a l IH]; intros acc s; [done|].
  rewrite bind_cons, for_each_app. cbn. unfold bind.
  destruct (for_each (h a) acc body s) as [[acc'|e] s1]; [|done].
  apply IH.
Qed.

Lemma scan_area_one_loop x1 y1 z1 x2 y2 z2 s :
  scan_area E x1 y1 z1 x2 y2 z2 s
  = for_each (box_voxels x1 y1 z1 x2 y2 z2) ∅ (scan_body E) s.
Proof.
  unfold scan_area, box_voxels, voxels.
  rewrite for_each_bind_list. apply for_each_ext. intros m1 x s1.
  rewrite for_each_bind_list. apply for_each_ext. intros m2 y s2.
  rewrite for_each_bind_list. apply for_each_ext. intros m3 z s3.
  cbn. unfold bind. destruct (get_block E x y z s3) as [[b|e] s4]; [|done].
  by case_bool_decide.
Qed.

Lemma box_voxels_facts x1 y1 z1 x2 y2 z2 :
  StronglySorted voxel_lt (box_voxels x1 y1 z1 x2 y2 z2) /\
  NoDup (box_voxels x1 y1 z1 x2 y2 z2) /\
  (forall v, v ∈ box_voxels x1 y1 z1 x2 y2 z2 <-> in_box x1 y1 z1 x2 y2 z2 v) /\
  length (box_voxels x1 y1 z1 x2 y2 z2)
    = Z.to_nat ((Z.abs (x1 - x2) + 1) * (Z.abs (y1 - y2) + 1) * (Z.abs (z1 - z2) + 1)).
Proof.
  assert (Hsorted : StronglySorted voxel_lt (box_voxels x1 y1 z1 x2 y2 z2))
    by (apply StronglySorted_voxels; apply StronglySorted_range).
  split; [exact Hsorted|]. split; [|split].
  - eapply StronglySorted_NoDup; [exact voxel_lt_irrefl|exact Hsorted].
  - intros [[x y] z]. apply elem_of_box_voxels.
  - unfold box_voxels. rewrite length_voxels, !length_range_box. lia.
Qed.

(** X7: [scan_area] is one pass over the voxels of the inclusive box
    between its corners: it does at each voxel what the innermost loop body
    does, visiting each voxel of the box once and no other, in ascending
    order by x, then y, then z; the number of voxels visited is the
    product of the three side lengths, so at least one. *)
Theorem scan_area_visits x1 y1 z1 x2 y2 z2 s :
  scan_area E x1 y1 z1 x2 y2 z2 s
    = for_each (box_voxels x1 y1 z1 x2 y2 z2) ∅ (scan_body E) s /\
  StronglySorted voxel_lt (box_voxels x1 y1 z1 x2 y2 z2) /\
  NoDup (box_voxels x1 y1 z1 x2 y2 z2) /\
  (forall v, v ∈ box_voxels x1 y1 z1 x2 y2 z2 <-> in_box x1 y1 z1 x2 y2 z2 v) /\
  length (box_voxels x1 y1 z1 x2 y2 z2)
    = Z.to_nat ((Z.abs (x1 - x2) + 1) * (Z.abs (y1 - y2) + 1) * (Z.abs (z1 - z2) + 1)) /\
  (0 < length (box_voxels x1 y1 z1 x2 y2 z2))%nat.
Proof.
  split; [apply scan_area_one_loop|].
  destruct (box_voxels_facts x1 y1 z1 x2 y2 z2) as (Hs & Hn & Hin & Hlen).
  repeat (split; [assumption|]). rewrite Hlen. nia.
Qed.

(** *** Loops over lookups, whatever the collaborator does *)






(** *** scan_area and get_multiple_blocks *)

(** X9: for a deterministic collaborator, scanning a box gives what
    looking up all voxels of the box with [get_multiple_blocks] gives (the
    batch run at any later point of the session), with the entries whose
    value is an air spelling removed; the batch itself has an entry for
    every voxel of the box. *)
Theorem scan_area_filters_batch O x1 y1 z1 x2 y2 z2 s s' :
  deterministic E O ->
  reachable E s ->
  rtc (step E) s s' ->
  exists blocks results,
    (scan_area E x1 y1 z1 x2 y2 z2 s).1 = Returned blocks /\
    (get_multiple_blocks E (box_voxels x1 y1 z1 x2 y2 z2) s').1 = Returned results /\
    blocks = filter (fun kv => kv.2 ∉ air_blocks) results /\
    forall v, in_box x1 y1 z1 x2 y2 z2 v -> is_Some (results !! v).
Proof.
  intros HO Hs Hsteps. pose proof (reachable_coherent E O HO s Hs) as Hco.
  destruct (session_coherent E O HO s s' Hsteps Hco) as [Hco' Hdir].
  eexists _, _. split; [by apply (scan_area_det E O HO)|].
  split; [by apply (get_multiple_blocks_det E O HO)|].
  rewrite Hdir. fold (box_voxels x1 y1 z1 x2 y2 z2).
  destruct (box_voxels_facts x1 y1 z1 x2 y2 z2) as (_ & _ & Hin & _).
  split.
  - apply map_eq. intros [[x y] z].
    rewrite map_lookup_filter, !put_foldl_lookup, !lookup_empty.
    case_decide; [|done]. cbn. unfold solid.
    case_bool_decide; by case_guard.
  - intros [[x y] z] Hbox. rewrite put_foldl_lookup.
    rewrite decide_True by (by apply Hin). eauto.
Qed.

(** *** Lookups in a cached chunk *)


(** *** Construction *)


(** *** The dictionary in insertion order *)

Lemma dict_set_fresh {K V} `{EqDecision K} (d : list (K * V)) k v :
  k ∉ d.*1 -> dict_set d k v = d ++ [(k, v)].
Proof.
  induction d as [|[k' v'] d IH]; [done|]. cbn.
  intros [Hne Hnin]%not_elem_of_cons.
  rewrite decide_False by done. by rewrite IH.
Qed.

Lemma sublist_StronglySorted {A} (R : relation A) (l1 l2 : list A) :
  l1 `sublist_of` l2 -> StronglySorted R l2 -> StronglySorted R l1.
Proof.
  induction 1 as [|a l1 l2 Hsub IH|a l1 l2 Hsub IH]; intros Hsorted.
  - constructor.
  - apply StronglySorted_inv in Hsorted as [Hl2 Hall]. constructor; [by apply IH|].
    rewrite Forall_forall in Hall |- *. intros b Hb. apply Hall.
    eapply elem_of_sublist; eassumption.
  - apply StronglySorted_inv in Hsorted as [Hl2 _]. by apply IH.
Qed.

Lemma scan_area_items_one_loop x1 y1 z1 x2 y2 z2 s :
  scan_area_items E x1 y1 z1 x2 y2 z2 s
  = for_each (box_voxels x1 y1 z1 x2 y2 z2) [] (items_body E) s.
Proof.
  unfold scan_area_items, box_voxels, voxels.
  rewrite for_each_bind_list. apply for_each_ext. intros m1 x s1.
  rewrite for_each_bind_list. apply for_each_ext. intros m2 y s2.
  rewrite for_each_bind_list. apply for_each_ext. intros m3 z s3.
  cbn [for_each]. unfold bind at 1.
  by destruct (items_body E m3 (x, y, z) s3) as [[b|e] s4].
Qed.

Lemma for_each_cons {A B} (body : B -> A -> M B) a (l : list A) acc s :
  for_each (X := X) (a :: l) acc body s =
    match body acc a s with
    | (Returned acc', s') => for_each l acc' body s'
    | (Raised e, s') => (Raised e, s')
    end.
Proof. reflexivity. Qed.

Lemma items_body_eq items x y z s b s1 :
  get_block E x y z s = (Returned b, s1) ->
  items_body E items (x, y, z) s =
    (Returned (if bool_decide (b ∉ air_blocks)
               then dict_set items (x, y, z) b else items), s1).
Proof. intros H. unfold items_body, bind. rewrite H. by case_bool_decide. Qed.

Lemma scan_body_eq (blocks : gmap (Z * Z * Z) string) x y z s b s1 :
  get_block E x y z s = (Returned b, s1) ->
  scan_body E blocks (x, y, z) s =
    (Returned (if bool_decide (b ∉ air_blocks)
               then <[(x, y, z) := b]> blocks else blocks), s1).
Proof. intros H. unfold scan_body, bind. rewrite H. by case_bool_decide. Qed.

(** The two loops side by side: same lookups, same final state; the
    ordered dictionary grows at its end by the voxels kept, in order. *)
Lemma items_loop (l : list (Z * Z * Z)) :
  forall (items : list ((Z * Z * Z) * string)) s,
    NoDup (items.*1 ++ l) ->
    exists new,
      for_each l items (items_body E) s
        = (Returned (items ++ new),
           (for_each l (list_to_map items) (scan_body E) s).2) /\
      (for_each l (list_to_map items) (scan_body E) s).1
        = Returned (list_to_map (items ++ new)) /\
      new.*1 `sublist_of` l.
Proof.
  induction l as [|[[x y] z] l IH]; intros items s Hnodup.
  - exists []. rewrite app_nil_r. done.
  - destruct (get_block_returns E x y z s) as (b & Hb).
    destruct (get_block E x y z s) as [o s1] eqn:Hget. cbn in Hb. subst o.
    rewrite !for_each_cons, (items_body_eq _ _ _ _ _ _ _ Hget),
      (scan_body_eq _ _ _ _ _ _ _ Hget).
    assert (Hfresh : (x, y, z) ∉ items.*1).
    { apply NoDup_app in Hnodup as (_ & Hdisj & _). intros Hin.
      apply (Hdisj _ Hin). by left. }
    case_bool_decide as Hair.
    + rewrite dict_set_fresh by done.
      rewrite <- (list_to_map_snoc items (x, y, z) b) by done.
      destruct (IH (items ++ [((x, y, z), b)]) s1) as (new & Hitems & Hmap & Hsub).
      { rewrite fmap_app, <- app_assoc. done. }
      exists (((x, y, z), b) :: new). rewrite <- app_assoc in Hitems, Hmap.
      split; [exact Hitems|]. split; [exact Hmap|]. by constructor.
    + destruct (IH items s1) as (new & Hitems & Hmap & Hsub).
      { apply NoDup_app in Hnodup as (Hn1 & Hdisj & Hn2).
        apply NoDup_app. split; [done|]. split.
        - intros v Hv Hin. apply (Hdisj v Hv). by right.
        - by apply NoDup_cons in Hn2 as [_ ?]. }
      exists new. split; [exact Hitems|]. split; [exact Hmap|]. by constructor.
Qed.

(** The ordered run against the unordered one. *)
Lemma scan_area_items_refines_aux x1 y1 z1 x2 y2 z2 s :
  exists items,
    scan_area_items E x1 y1 z1 x2 y2 z2 s
      = (Returned items, (scan_area E x1 y1 z1 x2 y2 z2 s).2) /\
    (scan_area E x1 y1 z1 x2 y2 z2 s).1 = Returned (list_to_map items) /\
    items.*1 `sublist_of` box_voxels x1 y1 z1 x2 y2 z2 /\
    NoDup items.*1 /\
    StronglySorted voxel_lt items.*1 /\
    length items = size (list_to_map items : gmap (Z * Z * Z) string).
Proof.
  destruct (box_voxels_facts x1 y1 z1 x2 y2 z2) as (Hsorted & Hnodup & _ & _).
  destruct (items_loop (box_voxels x1 y1 z1 x2 y2 z2) [] s)
    as (items & Hitems & Hmap & Hsub); [done|].
  rewrite scan_area_items_one_loop, !scan_area_one_loop.
  exists items. split; [exact Hitems|]. split; [exact Hmap|]. split; [exact Hsub|].
  assert (Hn : NoDup items.*1) by (eapply sublist_NoDup; eassumption).
  split; [exact Hn|]. split; [by eapply sublist_StronglySorted|].
  by rewrite map_size_list_to_map.
Qed.

(** X12: [scan_area] with the insertion order of its dictionary.  Whatever
    the collaborator does, the items are the entries of the mapping
    [scan_area] returns, each key once, in the order the voxels are
    visited (ascending by x, then y, then z); the run makes the same
    lookups and ends in the same state. *)
Theorem scan_area_items_refines x1 y1 z1 x2 y2 z2 s :
  exists items,
    scan_area_items E x1 y1 z1 x2 y2 z2 s
      = (Returned items, (scan_area E x1 y1 z1 x2 y2 z2 s).2) /\
    (scan_area E x1 y1 z1 x2 y2 z2 s).1 = Returned (list_to_map items) /\
    items.*1 `sublist_of` box_voxels x1 y1 z1 x2 y2 z2 /\
    NoDup items.*1 /\
    StronglySorted voxel_lt items.*1 /\
    length items = size (list_to_map items : gmap (Z * Z * Z) string).
Proof. apply scan_area_items_refines_aux. Qed.

(** *** What main writes *)

Lemma str_app_assoc (a b c : string) : (a +:+ b) +:+ c = a +:+ (b +:+ c).
Proof.
  induction a as [|x a IH]; [done|].
  change (String x ((a +:+ b) +:+ c) = String x (a +:+ (b +:+ c))). by rewrite IH.
Qed.

Lemma str_app_nil_r (a : string) : a +:+ "" = a.
Proof.
  induction a as [|x a IH]; [done|].
  change (String x (a +:+ "") = String x a). by rewrite IH.
Qed.

Lemma newlines_app (a b : string) :
  newlines (a +:+ b) = (newlines a + newlines b)%nat.
Proof.
  induction a as [|x a IH]; [done|].
  change (newlines (String x (a +:+ b)) = (newlines (String x a) + newlines b)%nat).
  cbn [newlines]. rewrite IH. lia.
Qed.

Lemma newlines_str_of_int (n : Z) : newlines (Py.str_of_int n) = O.
Proof.
  pose proof (str_of_int_chars n) as Hchars.
  induction (Py.str_of_int n) as [|x a IH]; [done|].
  cbn in Hchars. apply andb_prop in Hchars as [Hx Ha].
  cbn [newlines]. rewrite IH by done.
  destruct (Ascii.eqb x "010") eqn:Heq; [|done].
  apply Ascii.eqb_eq in Heq. by subst x.
Qed.

Lemma newlines_output_line (v : Z * Z * Z) : newlines (output_line v) = 1%nat.
Proof.
  destruct v as [[x y] z]. unfold output_line. cbv zeta.
  rewrite !newlines_app, !newlines_str_of_int. done.
Qed.




(** X14: a line of the output file determines its voxel: two voxels are
    written as the same line only when they are the same voxel, so the
    file lists each retained voxel by a line of its own. *)
Theorem output_line_inj (v v' : Z * Z * Z) :
  output_line v = output_line v' <-> v = v'.
Proof.
  split; [|by intros ->].
  destruct v as [[x y] z], v' as [[x' y'] z']. unfold output_line. cbv zeta.
  intros Heq.
  apply (split_at_separator is_int_char " "%char) in Heq
    as [Hz Heq]; [|done|apply str_of_int_chars..].
  apply (split_at_separator is_int_char " "%char) in Heq
    as [Hx Heq]; [|done|apply str_of_int_chars..].
  apply (split_at_separator is_int_char "010"%char) in Heq
    as [Hy _]; [|done|apply str_of_int_chars..].
  apply (inj pretty) in Hx, Hy, Hz.
  f_equal; [f_equal|]; lia.
Qed.

(** X15: the string [main] hashes into the file name determines the six
    coordinates as they were typed; in particular, giving the two corners
    of a box the other way round (which scans the same voxels) gives the
    same string only when the corners coincide. *)
Theorem scan_string_inj (x1 y1 z1 x2 y2 z2 a1 b1 d1 a2 b2 d2 : Z) :
  (scan_string x1 y1 z1 x2 y2 z2 = scan_string a1 b1 d1 a2 b2 d2
   <-> (x1, y1, z1, x2, y2, z2) = (a1, b1, d1, a2, b2, d2)) /\
  (scan_string x1 y1 z1 x2 y2 z2 = scan_string x2 y2 z2 x1 y1 z1
   <-> (x1, y1, z1) = (x2, y2, z2)).
Proof.
  assert (Hinj : forall p1 p2 p3 p4 p5 p6 q1 q2 q3 q4 q5 q6,
    scan_string p1 p2 p3 p4 p5 p6 = scan_string q1 q2 q3 q4 q5 q6 ->
    (p1, p2, p3, p4, p5, p6) = (q1, q2, q3, q4, q5, q6)).
  { intros p1 p2 p3 p4 p5 p6 q1 q2 q3 q4 q5 q6. unfold scan_string. intros Heq.
    apply (split_at_separator is_int_char "_"%char) in Heq
      as [H1 Heq]; [|done|apply str_of_int_chars..].
    apply (split_at_separator is_int_char "_"%char) in Heq
      as [H2 Heq]; [|done|apply str_of_int_chars..].
    apply (split_at_separator is_int_char "_"%char) in Heq
      as [H3 Heq]; [|done|apply str_of_int_chars..].
    apply (split_at_separator is_int_char "_"%char) in Heq
      as [H4 Heq]; [|done|apply str_of_int_chars..].
    apply (split_at_separator is_int_char "_"%char) in Heq
      as [H5 H6]; [|done|apply str_of_int_chars..].
    apply (inj pretty) in H1, H2, H3, H4, H5, H6. by subst. }
  split; (split; [|by intros [= -> -> -> -> -> ->] || by intros [= -> -> ->]]).
  - apply Hinj.
  - intros Heq. apply Hinj in Heq. by simplify_eq.
Qed.

End ReaderExtra.

(** ** list_available_regions *)

Lemma endswith_refl (s : string) : Listing.endswith s s = true.
Proof. destruct s; cbn [Listing.endswith]; by rewrite String.eqb_refl. Qed.

Lemma endswith_app (a suffix : string) : Listing.endswith (a +:+ suffix) suffix = true.
Proof.
  induction a as [|x a IH]; [apply endswith_refl|].
  change (Listing.endswith (String x (a +:+ suffix)) suffix = true).
  cbn [Listing.endswith]. rewrite IH. apply orb_true_r.
Qed.

(** X16: what [list_available_regions] prints.  With the region directory
    missing it prints one line saying so and does not list anything; when
    listing the directory raises, so does the method.  Otherwise it prints
    a header with the number of names ending in ".mca", then those names
    (each once per occurrence in the listing, indented by two spaces) in
    ascending string order; names with another ending are left out, and
    the file name of every region, [r.<x>.<z>.mca], is shown when the
    directory has it. *)
Theorem list_available_regions_prints {X : Type} (names : list string) :
  (forall listdir : outcome X (list string),
      Listing.list_available_regions false listdir
        = Returned ["Region path does not exist"]) /\
  (forall e : exn X,
      Listing.list_available_regions true (Raised e) = Raised e) /\
  exists files,
    Listing.list_available_regions (X := X) true (Returned names)
      = Returned (("Found " +:+ pretty (length files) +:+ " region files:")
                  :: ((fun file => "  " +:+ file) <$> files)) /\
    StronglySorted String.le files /\
    files ≡ₚ filter (fun f => Listing.endswith f ".mca" = true) names /\
    (forall f, f ∈ files <-> f ∈ names /\ Listing.endswith f ".mca" = true) /\
    (forall region_x region_z,
        let name := "r." +:+ Py.str_of_int region_x +:+ "."
                         +:+ Py.str_of_int region_z +:+ ".mca" in
        name ∈ names -> name ∈ files).
Proof.
  split; [done|]. split; [done|].
  set (region_files := filter (fun f => Listing.endswith f ".mca" = true) names).
  exists (merge_sort String.le region_files).
  assert (Hperm : merge_sort String.le region_files ≡ₚ region_files)
    by apply merge_sort_Permutation.
  assert (Hin : forall f, f ∈ merge_sort String.le region_files
                          <-> f ∈ names /\ Listing.endswith f ".mca" = true).
  { intros f. rewrite Hperm. unfold region_files. rewrite list_elem_of_filter. tauto. }
  split; [|split; [|split; [|split]]].
  - unfold Listing.list_available_regions. cbn [negb]. fold region_files.
    by rewrite (Permutation_length Hperm).
  - apply StronglySorted_merge_sort; apply _.
  - exact Hperm.
  - exact Hin.
  - intros region_x region_z name Hname. apply Hin. split; [done|].
    unfold name. rewrite <- !str_app_assoc. apply endswith_app.
Qed.

Example list_available_regions_example :
  Listing.list_available_regions (X := unit) true
    (Returned ["r.0.0.mca"; "level.dat"; "r.-1.0.mca"; "r.0.-1.mca"])
  = Returned ["Found 3 region files:"; "  r.-1.0.mca"; "  r.0.-1.mca"; "  r.0.0.mca"].
Proof. by vm_compute. Qed.

(** ** The further theorems at work on the stub *)

Lemma library_calls_well_formed_witness :
  let s := (scan_area Stub.env 4 63 4 20 64 5 Stub.fresh).2 in
  Forall (well_formed_event s) (trace s) /\ length (trace s) = 70%nat.
Proof.
  intros s. split; [|reflexivity].
  apply (proj1 (library_calls_well_formed Stub.env s
                  (ex_intro _ "saves" (ex_intro _ O (ex_intro _ Stub.fresh
                     (conj eq_refl
                        (rtc_once _ _
                           (step_scan_area Stub.env Stub.fresh 4 63 4 20 64 5)))))))).
Defined.

Lemma scan_area_filters_batch_witness :
  exists blocks results,
    (scan_area Stub.env 4 63 4 5 64 5 Stub.fresh).1 = Returned blocks /\
    (get_multiple_blocks Stub.env (box_voxels 4 63 4 5 64 5) Stub.fresh).1
      = Returned results /\
    blocks = filter (fun kv => kv.2 ∉ air_blocks) results /\
    size results = 8%nat /\ size blocks = 1%nat.
Proof.
  destruct (scan_area_filters_batch Stub.env Stub.oracle 4 63 4 5 64 5
              Stub.fresh Stub.fresh stub_deterministic stub_fresh_reachable
              (rtc_refl _ _)) as (blocks & results & Hb & Hr & Hfilter & _).
  exists blocks, results. split; [exact Hb|]. split; [exact Hr|].
  split; [exact Hfilter|].
  injection Hb as <-. injection Hr as <-. split; reflexivity.
Defined.


Example main_scan_example :
  (main_scan Stub.env 4 63 4 5 64 5 Stub.fresh).1
    = Returned (Some ("240 240 3072" +:+ String "010"%char "")) /\
  (main_scan Stub.env 0 0 0 3 1 3 Stub.fresh).1 = Returned None.
Proof. split; by vm_compute. Qed.

(** ** The strict reader *)

Section StrictFacts.

Context {W Region Chunk Block X : Type}.
Variable E : @Strict.Env W Region Chunk Block X.

Local Abbreviation State := (@State W Region Chunk).
Local Abbreviation event := (@event Region Chunk).

Implicit Types (s : State) (r : Region) (c : Chunk).

(** *** Integers that can be printed *)

Lemma too_long_smaller (limit : N) (a b : Z) :
  Z.abs a <= Z.abs b -> Strict.too_long limit b = false ->
  Strict.too_long limit a = false.
Proof.
  unfold Strict.too_long. intros Hab.
  destruct (limit =? 0)%N; cbn; [done|].
  rewrite !Z.leb_gt. lia.
Qed.

Lemma format_ints_ok (ns : list Z) :
  Strict.format_ints E ns = Strict.Returns tt
  <-> Forall (fun n => Strict.too_long (Strict.int_max_str_digits E) n = false) ns.
Proof.
  induction ns as [|n ns IH]; cbn.
  - split; [constructor|done].
  - destruct (Strict.too_long _ n) eqn:Hn.
    + split; [done|]. intros Hall. apply Forall_cons_1 in Hall as [? _]. congruence.
    + rewrite IH. split; [by constructor|]. by intros [_ ?]%Forall_cons_1.
Qed.

Lemma format_ints_cases (ns : list Z) :
  Strict.format_ints E ns = Strict.Returns tt \/
  Strict.format_ints E ns = Strict.Raises Strict.ValueError.
Proof.
  induction ns as [|n ns IH]; cbn; [by left|].
  destruct (Strict.too_long _ n); [by right|exact IH].
Qed.

(** With both coordinates printable, line 93 gives the file name of the
    restricted model. *)
Lemma strict_region_file_ok dir region_x region_z :
  Strict.format_ints E [region_x; region_z] = Strict.Returns tt ->
  Strict.region_file E dir region_x region_z
    = Strict.Returns (region_file dir region_x region_z).
Proof.
  rewrite format_ints_ok. intros Hall.
  apply Forall_cons_1 in Hall as [Hx Hall]. apply Forall_cons_1 in Hall as [Hz _].
  unfold Strict.region_file, Strict.str_of_int. by rewrite Hx, Hz.
Qed.

Lemma strict_region_file_raises dir region_x region_z :
  Strict.format_ints E [region_x; region_z] = Strict.Raises Strict.ValueError ->
  Strict.region_file E dir region_x region_z = Strict.Raises Strict.ValueError.
Proof.
  unfold Strict.region_file, Strict.str_of_int. cbn.
  destruct (Strict.too_long _ region_x); [done|].
  destruct (Strict.too_long _ region_z); done.
Qed.

Lemma abs_chunk_of (x : Z) : Z.abs (chunk_of x) <= Z.abs x.
Proof.
  rewrite chunk_of_div.
  pose proof (Z.div_mod x 16 ltac:(lia)). pose proof (Z.mod_pos_bound x 16 ltac:(lia)).
  lia.
Qed.

Lemma abs_region_of (c : Z) : Z.abs (region_of c) <= Z.abs c.
Proof.
  unfold region_of.
  pose proof (Z.div_mod c 32 ltac:(lia)). pose proof (Z.mod_pos_bound c 32 ltac:(lia)).
  lia.
Qed.

(** Printable world coordinates have printable chunk and region
    coordinates. *)
Lemma format_ints_voxel x y z :
  Strict.format_ints E [x; y; z] = Strict.Returns tt ->
  Strict.format_ints E [chunk_of x; chunk_of z] = Strict.Returns tt /\
  Strict.format_ints E [region_of (chunk_of x); region_of (chunk_of z)]
    = Strict.Returns tt.
Proof.
  rewrite !format_ints_ok. intros Hall.
  apply Forall_cons_1 in Hall as [Hx Hall]. apply Forall_cons_1 in Hall as [_ Hall].
  apply Forall_cons_1 in Hall as [Hz _].
  pose proof (abs_chunk_of x). pose proof (abs_chunk_of z).
  pose proof (abs_region_of (chunk_of x)). pose proof (abs_region_of (chunk_of z)).
  split; (apply Forall_cons_2; [|apply Forall_cons_2; [|apply Forall_nil_2]]).
  - apply (too_long_smaller _ _ x); [lia|exact Hx].
  - apply (too_long_smaller _ _ z); [lia|exact Hz].
  - apply (too_long_smaller _ _ x); [lia|exact Hx].
  - apply (too_long_smaller _ _ z); [lia|exact Hz].
Qed.

(** *** Region resolution, case by case *)

Lemma strict_get_region_hit region_x region_z s r :
  region_cache s !! (region_x, region_z) = Some r ->
  Strict._get_region E region_x region_z s = (Strict.Returns (Some r), s).
Proof.
  intros H. unfold Strict._get_region, Strict.bind, Strict.gets, Strict.ret.
  now rewrite H.
Qed.

Lemma strict_get_region_miss region_x region_z s :
  region_cache s !! (region_x, region_z) = None ->
  Strict._get_region E region_x region_z s =
    match Strict.region_file E (world_directory s) region_x region_z with
    | Strict.Raises e => (Strict.Raises e, s)
    | Strict.Returns path =>
        let after w' :=
          mkState (world_directory s) (region_cache s) (chunk_cache s) w'
                  (trace s ++ [EvFromFile path]) in
        match Strict.from_file E path (world s) with
        | (Strict.Returns r, w') =>
            (Strict.Returns (Some r),
             set_region_cache <[(region_x, region_z) := r]> (after w'))
        | (Strict.Raises e, w') =>
            if Strict.is_Exception e then (Strict.Returns None, after w')
            else (Strict.Raises e, after w')
        end
    end.
Proof.
  intros H. unfold Strict._get_region, Strict.bind at 1, Strict.gets.
  rewrite H. unfold Strict.bind at 1, Strict.eval.
  destruct (Strict.region_file E _ _ _) as [path|e]; [|reflexivity].
  unfold Strict.try_except, Strict.bind, Strict.call, Strict.modify, Strict.ret.
  cbn.
  destruct (Strict.from_file E path (world s)) as [[r|e] w']; [reflexivity|].
  by destruct (Strict.is_Exception e).
Qed.

(** *** Chunk resolution, case by case *)

Lemma strict_get_chunk_hit chunk_x chunk_z s c :
  chunk_cache s !! (chunk_x, chunk_z) = Some c ->
  Strict._get_chunk E chunk_x chunk_z s = (Strict.Returns (Some c), s).
Proof.
  intros H. unfold Strict._get_chunk, Strict.bind, Strict.gets, Strict.ret.
  now rewrite H.
Qed.

Lemma strict_get_chunk_miss chunk_x chunk_z s :
  chunk_cache s !! (chunk_x, chunk_z) = None ->
  Strict._get_chunk E chunk_x chunk_z s =
    match Strict._get_region E (region_of chunk_x) (region_of chunk_z) s with
    | (Strict.Returns (Some r), s1) =>
        let after w' :=
          mkState (world_directory s1) (region_cache s1) (chunk_cache s1) w'
                  (trace s1 ++ [EvGetChunk r (slot_of chunk_x) (slot_of chunk_z)]) in
        match Strict.region_get_chunk E r (slot_of chunk_x) (slot_of chunk_z)
                (world s1) with
        | (Strict.Returns c, w') =>
            (Strict.Returns (Some c),
             set_chunk_cache <[(chunk_x, chunk_z) := c]> (after w'))
        | (Strict.Raises e, w') =>
            if Strict.is_Exception e
            then Strict.print_then E [chunk_x; chunk_z] None (after w')
            else (Strict.Raises e, after w')
        end
    | (Strict.Returns None, s1) => (Strict.Returns None, s1)
    | (Strict.Raises e, s1) => (Strict.Raises e, s1)
    end.
Proof.
  intros H. unfold Strict._get_chunk at 1. unfold Strict.bind at 1.
  unfold Strict.gets at 1. rewrite H. unfold Strict.bind at 1.
  destruct (Strict._get_region E _ _ s) as [[[r|]|e] s1]; try reflexivity.
  unfold Strict.try_except, Strict.bind, Strict.call, Strict.modify, Strict.ret.
  cbn.
  destruct (Strict.region_get_chunk E r _ _ (world s1)) as [[c|e] w']; [reflexivity|].
  by destruct (Strict.is_Exception e).
Qed.

(** *** Block lookup, case by case *)

Lemma strict_get_block_unfold x y z s :
  Strict.get_block E x y z s =
    let handle (e : Strict.pyexn X) s' :=
      if Strict.is_Exception e
      then Strict.print_then E [x; y; z] (Strict.PyStr "minecraft:air") s'
      else (Strict.Raises e, s') in
    match Strict._get_chunk E (chunk_of x) (chunk_of z) s with
    | (Strict.Returns (Some c), s1) =>
        let s2 w' :=
          mkState (world_directory s1) (region_cache s1) (chunk_cache s1) w'
                  (trace s1 ++ [EvGetBlock c (block_of x) y (block_of z)]) in
        match Strict.chunk_get_block E c (block_of x) y (block_of z) (world s1) with
        | (Strict.Returns b, w') => (Strict.Returns (Strict.block_id E b), s2 w')
        | (Strict.Raises e, w') => handle e (s2 w')
        end
    | (Strict.Returns None, s1) => (Strict.Returns (Strict.PyStr "minecraft:air"), s1)
    | (Strict.Raises e, s1) => handle e s1
    end.
Proof.
  unfold Strict.get_block, Strict.try_except. cbv zeta. unfold Strict.bind at 1.
  destruct (Strict._get_chunk E _ _ s) as [[[c|]|e] s1]; try reflexivity.
  unfold Strict.bind, Strict.call, Strict.ret. cbn.
  now destruct (Strict.chunk_get_block E c _ _ _ (world s1)) as [[b|e] w'].
Qed.

(** A handler whose integers are printable returns its default. *)
Lemma print_then_ok {A} (ns : list Z) (a : A) s :
  Strict.format_ints E ns = Strict.Returns tt ->
  Strict.print_then E ns a s = (Strict.Returns a, s).
Proof.
  intros H. unfold Strict.print_then, Strict.bind, Strict.eval, Strict.ret.
  by rewrite H.
Qed.

Lemma print_then_raises {A} (ns : list Z) (a : A) s :
  Strict.format_ints E ns = Strict.Raises Strict.ValueError ->
  Strict.print_then E ns a s = (Strict.Raises Strict.ValueError, s).
Proof.
  intros H. unfold Strict.print_then, Strict.bind, Strict.eval, Strict.ret.
  by rewrite H.
Qed.

Lemma print_then_eq {A} (ns : list Z) (a : A) s :
  Strict.print_then E ns a s =
    (match Strict.format_ints E ns with
     | Strict.Returns _ => Strict.Returns a
     | Strict.Raises e => Strict.Raises e
     end, s).
Proof.
  unfold Strict.print_then, Strict.bind, Strict.eval, Strict.ret.
  by destruct (Strict.format_ints E ns).
Qed.

Lemma strict_region_file_cases dir region_x region_z :
  (Strict.format_ints E [region_x; region_z] = Strict.Returns tt /\
   Strict.region_file E dir region_x region_z
     = Strict.Returns (region_file dir region_x region_z)) \/
  (Strict.format_ints E [region_x; region_z] = Strict.Raises Strict.ValueError /\
   Strict.region_file E dir region_x region_z = Strict.Raises Strict.ValueError).
Proof.
  destruct (format_ints_cases [region_x; region_z]) as [H|H]; [left|right];
    (split; [exact H|]).
  - by apply strict_region_file_ok.
  - by apply strict_region_file_raises.
Qed.

(** An unprintable chunk or region coordinate comes from an unprintable
    world coordinate. *)
Lemma format_ints_voxel_raises x y z :
  Strict.format_ints E [chunk_of x; chunk_of z] = Strict.Raises Strict.ValueError \/
  Strict.format_ints E [region_of (chunk_of x); region_of (chunk_of z)]
    = Strict.Raises Strict.ValueError ->
  Strict.format_ints E [x; y; z] = Strict.Raises Strict.ValueError.
Proof.
  intros H. destruct (format_ints_cases [x; y; z]) as [Hok|Hraise]; [|exact Hraise].
  destruct (format_ints_voxel x y z Hok) as [Hc Hr].
  destruct H as [H|H]; congruence.
Qed.

Lemma only_exceptions_library :
  Strict.only_exceptions E <->
  forall e, Strict.library_raises E e -> Strict.is_Exception e = true.
Proof.
  unfold Strict.only_exceptions, Strict.library_raises. split.
  - intros (H1 & H2 & H3) e [(p & w & H)|[(r & lx & lz & w & H)|(c & bx & y & bz & w & H)]];
      eauto.
  - intros H. repeat split; intros; apply H; eauto 10.
Qed.

(** *** One lookup, through its cases *)

(** Splits a lookup by how the caches answer. *)
Ltac strict_lookup x y z s :=
  rewrite (strict_get_block_unfold x y z s); cbv zeta;
  let c := fresh "c" in let r := fresh "r" in
  destruct (chunk_cache s !! (chunk_of x, chunk_of z)) as [c|] eqn:Hcc;
  [ rewrite (strict_get_chunk_hit _ _ s c Hcc)
  | rewrite (strict_get_chunk_miss _ _ s Hcc);
    destruct (region_cache s !! (region_of (chunk_of x), region_of (chunk_of z)))
      as [r|] eqn:Hrc;
    [ rewrite (strict_get_region_hit _ _ s r Hrc)
    | rewrite (strict_get_region_miss _ _ s Hrc) ] ].

(** With printable coordinates a lookup returns, unless the library
    raises something that is not an [Exception]. *)
Lemma strict_get_block_outcome x y z s :
  Strict.format_ints E [x; y; z] = Strict.Returns tt ->
  (exists v, (Strict.get_block E x y z s).1 = Strict.Returns v) \/
  (exists e, (Strict.get_block E x y z s).1 = Strict.Raises e /\
             Strict.is_Exception e = false /\ Strict.library_raises E e).
Proof.
  intros Hp. destruct (format_ints_voxel x y z Hp) as [Hc Hr].
  assert (Hblock : forall c s1,
    let s2 w' :=
      mkState (world_directory s1) (region_cache s1) (chunk_cache s1) w'
              (trace s1 ++ [EvGetBlock c (block_of x) y (block_of z)]) in
    let o :=
      match Strict.chunk_get_block E c (block_of x) y (block_of z) (world s1) with
      | (Strict.Returns b, w') => (Strict.Returns (Strict.block_id E b), s2 w')
      | (Strict.Raises e, w') =>
          if Strict.is_Exception e
          then Strict.print_then E [x; y; z] (Strict.PyStr "minecraft:air") (s2 w')
          else (Strict.Raises e, s2 w')
      end in
    (exists v, o.1 = Strict.Returns v) \/
    (exists e, o.1 = Strict.Raises e /\
               Strict.is_Exception e = false /\ Strict.library_raises E e)).
  { intros c s1. cbv zeta.
    destruct (Strict.chunk_get_block E c _ _ _ (world s1)) as [[b|e] w'] eqn:Hb;
      [left; eauto|].
    destruct (Strict.is_Exception e) eqn:He.
    - rewrite print_then_ok by exact Hp. left; eauto.
    - right. exists e. split; [done|]. split; [done|].
      right; right. exists c, (block_of x), y, (block_of z), (world s1).
      by rewrite Hb. }
  assert (Hslot : forall r s1,
    let after w' :=
      mkState (world_directory s1) (region_cache s1) (chunk_cache s1) w'
              (trace s1 ++ [EvGetChunk r (slot_of (chunk_of x)) (slot_of (chunk_of z))]) in
    forall o,
      o = match Strict.region_get_chunk E r (slot_of (chunk_of x))
                  (slot_of (chunk_of z)) (world s1) with
          | (Strict.Returns c, w') =>
              (Strict.Returns (Some c),
               set_chunk_cache <[(chunk_of x, chunk_of z) := c]> (after w'))
          | (Strict.Raises e, w') =>
              if Strict.is_Exception e
              then Strict.print_then E [chunk_of x; chunk_of z] None (after w')
              else (Strict.Raises e, after w')
          end ->
      (exists oc, o.1 = Strict.Returns oc) \/
      (exists e, o.1 = Strict.Raises e /\
                 Strict.is_Exception e = false /\ Strict.library_raises E e)).
  { intros r s1 after o ->.
    destruct (Strict.region_get_chunk E r _ _ (world s1)) as [[c|e] w'] eqn:Hc';
      [left; eauto|].
    destruct (Strict.is_Exception e) eqn:He.
    - rewrite print_then_ok by exact Hc. left; eauto.
    - right. exists e. split; [done|]. split; [done|].
      right; left. exists r, (slot_of (chunk_of x)), (slot_of (chunk_of z)), (world s1).
      by rewrite Hc'. }
  strict_lookup x y z s.
  - apply Hblock.
  - destruct (Hslot r s _ eq_refl) as [(oc & Ho)|(e & Ho & He & Hlib)].
    + destruct (Strict.region_get_chunk E r _ _ (world s)) as [[c|e] w'];
        [apply Hblock|].
      destruct (Strict.is_Exception e).
      * rewrite print_then_ok by exact Hc. left; eauto.
      * discriminate.
    + destruct (Strict.region_get_chunk E r _ _ (world s)) as [[c|e'] w'];
        [discriminate|].
      destruct (Strict.is_Exception e') eqn:He'.
      * rewrite print_then_ok in Ho by exact Hc. discriminate.
      * cbn in Ho. injection Ho as ->. cbn. rewrite He. right. eauto.
  - rewrite (strict_region_file_ok _ _ _ Hr). cbv zeta.
    destruct (Strict.from_file E _ (world s)) as [[r|e] w0] eqn:Hload.
    + cbn [region_cache chunk_cache world world_directory trace set_region_cache].
      destruct (Strict.region_get_chunk E r _ _ w0) as [[c|e] w'] eqn:Hc'.
      * apply Hblock.
      * destruct (Strict.is_Exception e) eqn:He.
        -- rewrite print_then_ok by exact Hc. left; eauto.
        -- cbn. rewrite He. right. exists e. split; [done|]. split; [done|].
           right; left. exists r, (slot_of (chunk_of x)), (slot_of (chunk_of z)), w0.
           by rewrite Hc'.
    + destruct (Strict.is_Exception e) eqn:He.
      * left; eauto.
      * cbn. rewrite He. right. exists e. split; [done|]. split; [done|].
        left. eexists _, (world s). by rewrite Hload.
Qed.

Ltac scbn := cbn -[Strict.print_then Strict.format_ints].

(** The calls and the cache growth of one lookup. *)
Lemma strict_get_block_effect x y z s :
  let run := Strict.get_block E x y z s in
  (exists evs,
      trace run.2 = trace s ++ evs /\
      (lookup_calls
         (region_file (world_directory s)
            (region_of (chunk_of x)) (region_of (chunk_of z)))
         (slot_of (chunk_of x)) (slot_of (chunk_of z))
         (block_of x) y (block_of z) evs \/
       evs = [] /\
       run = (Strict.Raises Strict.ValueError, s) /\
       chunk_cache s !! (chunk_of x, chunk_of z) = None /\
       region_cache s !! (region_of (chunk_of x), region_of (chunk_of z)) = None /\
       Strict.format_ints E [region_of (chunk_of x); region_of (chunk_of z)]
         = Strict.Raises Strict.ValueError)) /\
  dom (region_cache run.2) ⊆
    dom (region_cache s) ∪ {[(region_of (chunk_of x), region_of (chunk_of z))]} /\
  dom (chunk_cache run.2) ⊆
    dom (chunk_cache s) ∪ {[(chunk_of x, chunk_of z)]}.
Proof.
  cbv zeta. strict_lookup x y z s.
  - destruct (Strict.chunk_get_block E c _ _ _ (world s)) as [[b|e] w'];
      [|destruct (Strict.is_Exception e); rewrite ?print_then_eq]; scbn;
      (split; [eexists; split; [reflexivity|cbn [app]; left; constructor]|]);
      split; apply union_subseteq_l.
  - destruct (Strict.region_get_chunk E r _ _ (world s)) as [[c|e] w']; scbn.
    + destruct (Strict.chunk_get_block E c _ _ _ w') as [[b|e] w''];
        [|destruct (Strict.is_Exception e); rewrite ?print_then_eq]; scbn;
        rewrite <- app_assoc;
        (split; [eexists; split; [reflexivity|cbn [app]; left; constructor]|]);
        (split; [apply union_subseteq_l|apply dom_insert_grow]).
    + destruct (Strict.is_Exception e) eqn:He; rewrite ?print_then_eq;
        [destruct (format_ints_cases [chunk_of x; chunk_of z]) as [-> | ->]|];
        scbn; rewrite ?He, ?print_then_eq; scbn;
        (split; [eexists; split; [reflexivity|cbn [app]; left; constructor]|]);
        split; apply union_subseteq_l.
  - destruct (strict_region_file_cases (world_directory s)
                (region_of (chunk_of x)) (region_of (chunk_of z)))
      as [[Hr ->]|[Hr ->]].
    + cbv zeta.
      destruct (Strict.from_file E _ (world s)) as [[r|e] w0]; scbn.
      * destruct (Strict.region_get_chunk E r _ _ w0) as [[c|e] w']; scbn.
        -- destruct (Strict.chunk_get_block E c _ _ _ w') as [[b|e] w''];
             [|destruct (Strict.is_Exception e); rewrite ?print_then_eq]; scbn;
             rewrite <- !app_assoc;
             (split; [eexists; split; [reflexivity|cbn [app]; left; constructor]|]);
             (split; apply dom_insert_grow).
        -- destruct (Strict.is_Exception e) eqn:He; rewrite ?print_then_eq;
             [destruct (format_ints_cases [chunk_of x; chunk_of z]) as [-> | ->]|];
             scbn; rewrite ?He, ?print_then_eq; scbn;
             rewrite <- app_assoc;
             (split; [eexists; split; [reflexivity|cbn [app]; left; constructor]|]);
             (split; [apply dom_insert_grow|apply union_subseteq_l]).
      * destruct (Strict.is_Exception e) eqn:He; scbn; rewrite ?He; scbn;
          (split; [eexists; split; [reflexivity|cbn [app]; left; constructor]|]);
          split; apply union_subseteq_l.
    + scbn. rewrite print_then_eq.
      rewrite (format_ints_voxel_raises x y z (or_intror Hr)). scbn.
      split; [|split; apply union_subseteq_l].
      exists []. split; [by rewrite app_nil_r|]. right. done.
Qed.

(** C1 (amended): for coordinates that can be printed, [get_block] returns
    whatever the library does, unless the library raises something that is
    not an [Exception], which [get_block] lets through; so it returns
    whenever the library raises instances of [Exception] only.  It returns
    "minecraft:air" when the chunk is not resolved and when the region
    load, the slot decode or the block decode raises an [Exception];
    otherwise it returns the id of the decoded block as the library gives
    it. *)
Theorem get_block_returns_or_propagates x y z s :
  Strict.format_ints E [x; y; z] = Strict.Returns tt ->
  let result := (Strict.get_block E x y z s).1 in
  let air := Strict.PyStr "minecraft:air" in
  let air_unless_not_exception (e : Strict.pyexn X) :=
    result = if Strict.is_Exception e then Strict.Returns air else Strict.Raises e in
  ((exists v, result = Strict.Returns v) \/
   (exists e, result = Strict.Raises e /\
              Strict.is_Exception e = false /\ Strict.library_raises E e)) /\
  (Strict.only_exceptions E -> exists v, result = Strict.Returns v) /\
  ((Strict._get_chunk E (chunk_of x) (chunk_of z) s).1 = Strict.Returns None ->
   result = Strict.Returns air) /\
  (forall e,
      chunk_cache s !! (chunk_of x, chunk_of z) = None ->
      region_cache s !! (region_of (chunk_of x), region_of (chunk_of z)) = None ->
      (Strict.from_file E
         (region_file (world_directory s)
            (region_of (chunk_of x)) (region_of (chunk_of z)))
         (world s)).1 = Strict.Raises e ->
      air_unless_not_exception e) /\
  (forall r s1 e,
      chunk_cache s !! (chunk_of x, chunk_of z) = None ->
      Strict._get_region E (region_of (chunk_of x)) (region_of (chunk_of z)) s
        = (Strict.Returns (Some r), s1) ->
      (Strict.region_get_chunk E r (slot_of (chunk_of x)) (slot_of (chunk_of z))
         (world s1)).1 = Strict.Raises e ->
      air_unless_not_exception e) /\
  (forall c s1 e,
      Strict._get_chunk E (chunk_of x) (chunk_of z) s = (Strict.Returns (Some c), s1) ->
      (Strict.chunk_get_block E c (block_of x) y (block_of z) (world s1)).1
        = Strict.Raises e ->
      air_unless_not_exception e) /\
  (forall c s1 b,
      Strict._get_chunk E (chunk_of x) (chunk_of z) s = (Strict.Returns (Some c), s1) ->
      (Strict.chunk_get_block E c (block_of x) y (block_of z) (world s1)).1
        = Strict.Returns b ->
      result = Strict.Returns (Strict.block_id E b)).
Proof.
  intros Hp result air air_unless. subst result air_unless air.
  destruct (format_ints_voxel x y z Hp) as [Hc Hr].
  pose proof (strict_get_block_outcome x y z s Hp) as Hout.
  split; [exact Hout|]. split.
  { intros Honly. destruct Hout as [Hv|(e & _ & He & Hlib)]; [exact Hv|].
    apply only_exceptions_library in Hlib; [congruence|exact Honly]. }
  split.
  { rewrite strict_get_block_unfold. cbv zeta.
    destruct (Strict._get_chunk E _ _ s) as [[[c|]|e] s1]; cbn; done. }
  split.
  { intros e Hcc Hrc Hload.
    rewrite strict_get_block_unfold, strict_get_chunk_miss, strict_get_region_miss
      by assumption.
    rewrite (strict_region_file_ok _ _ _ Hr). cbv zeta.
    destruct (Strict.from_file E _ (world s)) as [[r|e'] w0]; cbn in Hload;
      [discriminate|]. injection Hload as ->.
    destruct (Strict.is_Exception e) eqn:He; [done|]. cbn. by rewrite He. }
  split.
  { intros r s1 e Hcc Hreg Hdec.
    rewrite strict_get_block_unfold, strict_get_chunk_miss, Hreg by assumption.
    cbv zeta.
    destruct (Strict.region_get_chunk E r _ _ (world s1)) as [[c|e'] w']; cbn in Hdec;
      [discriminate|]. injection Hdec as ->.
    destruct (Strict.is_Exception e) eqn:He.
    - by rewrite print_then_ok by exact Hc.
    - cbn. by rewrite He. }
  split.
  { intros c s1 e Hchunk Hdec.
    rewrite strict_get_block_unfold, Hchunk. cbv zeta.
    destruct (Strict.chunk_get_block E c _ _ _ (world s1)) as [[b|e'] w']; cbn in Hdec;
      [discriminate|]. injection Hdec as ->.
    destruct (Strict.is_Exception e) eqn:He; [|done].
    by rewrite print_then_ok by exact Hp. }
  intros c s1 b Hchunk Hdec.
  rewrite strict_get_block_unfold, Hchunk. cbv zeta.
  destruct (Strict.chunk_get_block E c _ _ _ (world s1)) as [[b'|e'] w']; cbn in Hdec;
    [|discriminate]. by injection Hdec as ->.
Qed.

(** X4: one [get_block] makes at most three library calls, in this order
    and each at most once: a load of the region file of the voxel (only
    when the region is not cached), a decode of the voxel's slot (only when
    the chunk is not cached), a decode of the block at the voxel's offsets.
    It makes at least one, except when neither the chunk nor the region is
    cached and a region coordinate is too long to print: then the file
    name cannot be built, no call is made, and [get_block] raises
    [ValueError] with the reader unchanged.  It adds nothing to the caches
    but, at most, the voxel's region and the voxel's chunk. *)
Theorem get_block_library_calls x y z s :
  let run := Strict.get_block E x y z s in
  let region_x := region_of (chunk_of x) in
  let region_z := region_of (chunk_of z) in
  (exists evs,
      trace run.2 = trace s ++ evs /\
      (length evs <= 3)%nat /\
      (lookup_calls
         (region_file (world_directory s) region_x region_z)
         (slot_of (chunk_of x)) (slot_of (chunk_of z))
         (block_of x) y (block_of z) evs \/
       evs = [] /\
       run = (Strict.Raises Strict.ValueError, s) /\
       chunk_cache s !! (chunk_of x, chunk_of z) = None /\
       region_cache s !! (region_x, region_z) = None /\
       Strict.format_ints E [region_x; region_z] = Strict.Raises Strict.ValueError) /\
      (Strict.format_ints E [region_x; region_z] = Strict.Returns tt ->
       (1 <= length evs)%nat) /\
      (forall v, run.1 = Strict.Returns v -> (1 <= length evs)%nat)) /\
  dom (region_cache run.2) ⊆ dom (region_cache s) ∪ {[(region_x, region_z)]} /\
  dom (chunk_cache run.2) ⊆ dom (chunk_cache s) ∪ {[(chunk_of x, chunk_of z)]}.
Proof.
  intros run region_x region_z. subst run region_x region_z.
  destruct (strict_get_block_effect x y z s) as ((evs & Ht & Hcalls) & Hr & Hc).
  split; [|by split].
  exists evs. split; [exact Ht|].
  destruct Hcalls as [Hcalls|(-> & Hrun & Hcc & Hrc & Hfmt)].
  - pose proof (lookup_calls_length _ _ _ _ _ _ _ Hcalls) as Hlen.
    split; [lia|]. split; [by left|]. split; intros; lia.
  - split; [cbn; lia|]. split; [right; done|]. split.
    + intros Hok. congruence.
    + intros v Hv. rewrite Hrun in Hv. discriminate.
Qed.

(** *** Lookups in a cached chunk *)

(** X10: when the chunk of a voxel is in the chunk cache, [get_block]
    makes exactly one library call, the block decode on the cached chunk
    at the voxel's offsets, and leaves both caches as they are (so the
    chunk is still cached for the next lookup).  It returns the id of the
    block that call returns.  When the call raises an [Exception], it
    returns "minecraft:air" if x, y and z can be printed and raises
    [ValueError] if one of them cannot; what the call raises that is not an
    [Exception] is raised to the caller. *)
Theorem cached_chunk_get_block x y z s c :
  chunk_cache s !! (chunk_of x, chunk_of z) = Some c ->
  let after := Strict.get_block E x y z s in
  trace after.2 = trace s ++ [EvGetBlock c (block_of x) y (block_of z)] /\
  region_cache after.2 = region_cache s /\
  chunk_cache after.2 = chunk_cache s /\
  world after.2
    = (Strict.chunk_get_block E c (block_of x) y (block_of z) (world s)).2 /\
  after.1 =
    match (Strict.chunk_get_block E c (block_of x) y (block_of z) (world s)).1 with
    | Strict.Returns b => Strict.Returns (Strict.block_id E b)
    | Strict.Raises e =>
        if Strict.is_Exception e
        then match Strict.format_ints E [x; y; z] with
             | Strict.Returns _ => Strict.Returns (Strict.PyStr "minecraft:air")
             | Strict.Raises _ => Strict.Raises Strict.ValueError
             end
        else Strict.Raises e
    end.
Proof.
  intros Hc after. subst after.
  rewrite strict_get_block_unfold, strict_get_chunk_hit with (c := c) by assumption.
  cbv zeta.
  destruct (Strict.chunk_get_block E c _ _ _ (world s)) as [[b|e] w']; [done|].
  destruct (Strict.is_Exception e) eqn:He; scbn; rewrite ?He; [|done].
  rewrite print_then_eq.
  by destruct (format_ints_cases [x; y; z]) as [-> | ->].
Qed.

(** *** Construction *)

(** X11: constructing a reader raises [FileNotFoundError], with a message
    naming the region directory, exactly when that directory (the world
    path joined with "region") does not exist, and makes no library call.
    A reader that was constructed has empty caches, so its first lookup
    starts by loading the region file of the voxel from that directory,
    followed by at most two more calls; when a region coordinate of the
    voxel is too long to print there is no file name to load, and the
    lookup raises [ValueError] without any library call. *)
Theorem init_then_first_get_block world_path w x y z :
  let dir := Py.os_path_join world_path "region" in
  let region_x := region_of (chunk_of x) in
  let region_z := region_of (chunk_of z) in
  match Strict.init E world_path w with
  | Strict.Raises e =>
      Strict.os_path_exists E dir w = false /\
      e = Strict.Ordinary (FileNotFoundError ("Region folder not found at " +:+ dir))
  | Strict.Returns s0 =>
      Strict.os_path_exists E dir w = true /\
      world_directory s0 = dir /\
      region_cache s0 = ∅ /\ chunk_cache s0 = ∅ /\ trace s0 = [] /\ world s0 = w /\
      match Strict.format_ints E [region_x; region_z] with
      | Strict.Returns _ =>
          exists rest,
            trace (Strict.get_block E x y z s0).2 =
              EvFromFile (region_file dir region_x region_z) :: rest /\
            (length rest <= 2)%nat
      | Strict.Raises _ =>
          Strict.get_block E x y z s0 = (Strict.Raises Strict.ValueError, s0)
      end
  end.
Proof.
  intros dir region_x region_z. subst region_x region_z.
  unfold Strict.init. fold dir.
  destruct (Strict.os_path_exists E dir w); [|done].
  repeat (split; [done|]).
  rewrite strict_get_block_unfold, strict_get_chunk_miss, strict_get_region_miss
    by done.
  cbn [world_directory world trace region_cache chunk_cache].
  destruct (strict_region_file_cases dir
              (region_of (chunk_of x)) (region_of (chunk_of z)))
    as [[Hfmt ->]|[Hfmt ->]]; rewrite Hfmt.
  - cbv zeta.
    destruct (Strict.from_file E _ w) as [[r|e] w0]; scbn.
    + destruct (Strict.region_get_chunk E r _ _ w0) as [[c|e] w1]; scbn.
      * destruct (Strict.chunk_get_block E c _ _ _ w1) as [[b|e] w2];
          [|destruct (Strict.is_Exception e); rewrite ?print_then_eq]; scbn;
          eexists; (split; [reflexivity|cbn; lia]).
      * destruct (Strict.is_Exception e) eqn:He; rewrite ?print_then_eq;
          [destruct (format_ints_cases [chunk_of x; chunk_of z]) as [-> | ->]|];
          scbn; rewrite ?He, ?print_then_eq; scbn;
          eexists; (split; [reflexivity|cbn; lia]).
    + destruct (Strict.is_Exception e) eqn:He; scbn; rewrite ?He; scbn;
        eexists; (split; [reflexivity|cbn; lia]).
  - scbn. rewrite print_then_eq.
    by rewrite (format_ints_voxel_raises x y z (or_intror Hfmt)).
Qed.

(** *** Loops of the strict reader *)

Lemma strict_for_each_cons {A B} (body : B -> A -> Strict.PM B) a (l : list A) acc s :
  Strict.for_each (X := X) (a :: l) acc body s =
    match body acc a s with
    | (Strict.Returns acc', s') => Strict.for_each l acc' body s'
    | (Strict.Raises e, s') => (Strict.Raises e, s')
    end.
Proof. reflexivity. Qed.

Lemma strict_for_each_app {A B} (body : B -> A -> Strict.PM B) (l1 l2 : list A) acc s :
  Strict.for_each (X := X) (l1 ++ l2) acc body s
  = Strict.bind (Strict.for_each l1 acc body)
      (fun acc' => Strict.for_each l2 acc' body) s.
Proof.
  revert acc s. induction l1 as [|a l1 IH]; intros acc s; [reflexivity|].
  cbn. unfold Strict.bind. destruct (body acc a s) as [[acc'|e] s1]; [|done].
  rewrite IH. reflexivity.
Qed.

Lemma strict_for_each_ext {A B} (body1 body2 : B -> A -> Strict.PM B)
    (l : list A) acc s :
  (forall acc a s, body1 acc a s = body2 acc a s) ->
  Strict.for_each (X := X) l acc body1 s = Strict.for_each l acc body2 s.
Proof.
  intros Hbody. revert acc s. induction l as [|a l IH]; intros acc s; cbn; [done|].
  unfold Strict.bind. rewrite Hbody.
  destruct (body2 acc a s) as [[acc'|e] s1]; [|done]. apply IH.
Qed.

Lemma strict_for_each_bind_list {A B C} (body : C -> B -> Strict.PM C)
    (h : A -> list B) (l : list A) acc s :
  Strict.for_each (X := X) (l ≫= h) acc body s
  = Strict.for_each l acc (fun acc a => Strict.for_each (h a) acc body) s.
Proof.
  revert acc s. induction l as [|a l IH]; intros acc s; [done|].
  rewrite bind_cons, strict_for_each_app. cbn. unfold Strict.bind.
  destruct (Strict.for_each (h a) acc body s) as [[acc'|e] s1]; [|done].
  apply IH.
Qed.

(** The three nested loops are one loop over the voxels of the box. *)
Lemma strict_scan_area_one_loop x1 y1 z1 x2 y2 z2 s :
  Strict.scan_area E x1 y1 z1 x2 y2 z2 s
  = Strict.for_each (box_voxels x1 y1 z1 x2 y2 z2) ∅ (Strict.scan_body E) s.
Proof.
  unfold Strict.scan_area, box_voxels, voxels.
  rewrite strict_for_each_bind_list. apply strict_for_each_ext. intros m1 x s1.
  rewrite strict_for_each_bind_list. apply strict_for_each_ext. intros m2 y s2.
  rewrite strict_for_each_bind_list. apply strict_for_each_ext. intros m3 z s3.
  cbn. unfold Strict.bind.
  destruct (Strict.get_block E x y z s3) as [[b|e] s4]; [|done].
  by destruct (Strict.not_air b).
Qed.

Lemma strict_scan_area_items_one_loop x1 y1 z1 x2 y2 z2 s :
  Strict.scan_area_items E x1 y1 z1 x2 y2 z2 s
  = Strict.for_each (box_voxels x1 y1 z1 x2 y2 z2) [] (Strict.items_body E) s.
Proof.
  unfold Strict.scan_area_items, box_voxels, voxels.
  rewrite strict_for_each_bind_list. apply strict_for_each_ext. intros m1 x s1.
  rewrite strict_for_each_bind_list. apply strict_for_each_ext. intros m2 y s2.
  rewrite strict_for_each_bind_list. apply strict_for_each_ext. intros m3 z s3.
  cbn [Strict.for_each]. unfold Strict.bind at 1.
  by destruct (Strict.items_body E m3 (x, y, z) s3) as [[b|e] s4].
Qed.

(** A loop keeps what its body keeps, and raises only what its body
    raises. *)
Lemma strict_for_each_inv {A B} (I : B -> Prop) (Q : Strict.pyexn X -> Prop)
    (body : B -> A -> Strict.PM B) (l : list A) :
  (forall acc a s, a ∈ l -> I acc ->
     match (body acc a s).1 with
     | Strict.Returns acc' => I acc'
     | Strict.Raises e => Q e
     end) ->
  forall acc s, I acc ->
    match (Strict.for_each (X := X) l acc body s).1 with
    | Strict.Returns acc' => I acc'
    | Strict.Raises e => Q e
    end.
Proof.
  induction l as [|a l IH]; intros Hbody acc s Hacc; [done|].
  rewrite strict_for_each_cons.
  pose proof (Hbody acc a s ltac:(by left) Hacc) as Hstep.
  destruct (body acc a s) as [[acc'|e] s1]; [|exact Hstep].
  apply IH; [|exact Hstep]. intros acc0 a0 s0 Hin. apply Hbody. by right.
Qed.

(** The library calls of a loop whose body makes at most [hi] calls, and
    at least [lo] when it returns. *)
Lemma strict_for_each_call_count {A B} (lo hi : nat)
    (body : B -> A -> Strict.PM B) (l : list A) :
  (forall acc a s,
     exists evs, trace (body acc a s).2 = trace s ++ evs /\
                 (length evs <= hi)%nat /\
                 (forall acc', (body acc a s).1 = Strict.Returns acc' ->
                    (lo <= length evs)%nat)) ->
  forall acc s,
    exists evs, trace (Strict.for_each (X := X) l acc body s).2 = trace s ++ evs /\
                (length evs <= hi * length l)%nat /\
                (forall acc', (Strict.for_each l acc body s).1 = Strict.Returns acc' ->
                   (lo * length l <= length evs)%nat).
Proof.
  intros Hbody. induction l as [|a l IH]; intros acc s.
  - exists []. cbn. rewrite app_nil_r. split; [done|]. split; intros; lia.
  - rewrite strict_for_each_cons. cbn [length].
    destruct (Hbody acc a s) as (evs1 & Ht1 & Hhi & Hlo).
    destruct (body acc a s) as [[acc1|e] s1]; cbn [fst snd] in *.
    + destruct (IH acc1 s1) as (evs2 & Ht2 & Hhi2 & Hlo2).
      exists (evs1 ++ evs2). rewrite Ht2, Ht1, app_assoc, length_app.
      split; [done|]. split; [lia|].
      intros acc' Hret. specialize (Hlo acc1 eq_refl). specialize (Hlo2 acc' Hret). lia.
    + exists evs1. split; [done|]. split; [lia|]. intros acc' Hret. discriminate.
Qed.

(** The voxels between two printable corners are printable. *)
Lemma format_ints_box x1 y1 z1 x2 y2 z2 x y z :
  Strict.format_ints E [x1; y1; z1; x2; y2; z2] = Strict.Returns tt ->
  in_box x1 y1 z1 x2 y2 z2 (x, y, z) ->
  Strict.format_ints E [x; y; z] = Strict.Returns tt.
Proof.
  rewrite !format_ints_ok. intros Hall (Hx & Hy & Hz).
  repeat (apply Forall_cons_1 in Hall as [? Hall]).
  assert (Hbetween : forall a b v, Z.min a b <= v <= Z.max a b ->
    Strict.too_long (Strict.int_max_str_digits E) a = false ->
    Strict.too_long (Strict.int_max_str_digits E) b = false ->
    Strict.too_long (Strict.int_max_str_digits E) v = false).
  { intros a b v Hv Ha Hb.
    destruct (Z.le_ge_cases (Z.abs a) (Z.abs b)).
    - apply (too_long_smaller _ _ b); [lia|exact Hb].
    - apply (too_long_smaller _ _ a); [lia|exact Ha]. }
  repeat (apply Forall_cons_2); [..|apply Forall_nil_2]; eapply Hbetween; eassumption.
Qed.

(** *** Scans and batches, whatever the collaborator does *)

(** A scan between printable corners raises only what the library raises
    that is not an [Exception]. *)
Lemma scan_area_outcome_aux x1 y1 z1 x2 y2 z2 s :
  Strict.format_ints E [x1; y1; z1; x2; y2; z2] = Strict.Returns tt ->
  match (Strict.for_each (box_voxels x1 y1 z1 x2 y2 z2) ∅ (Strict.scan_body E) s).1 with
  | Strict.Returns _ => True
  | Strict.Raises e => Strict.is_Exception e = false /\ Strict.library_raises E e
  end.
Proof.
  intros Hp.
  destruct (box_voxels_facts x1 y1 z1 x2 y2 z2) as (_ & _ & Hin & _).
  apply (strict_for_each_inv (fun _ => True)
           (fun e => Strict.is_Exception e = false /\ Strict.library_raises E e));
    [|done].
  intros acc [[x y] z] s0 Hv _. unfold Strict.scan_body, Strict.bind.
  apply Hin in Hv.
  destruct (strict_get_block_outcome x y z s0
              (format_ints_box _ _ _ _ _ _ _ _ _ Hp Hv))
    as [(b & Hb)|(e & He & Hne & Hlib)];
    destruct (Strict.get_block E x y z s0) as [o s1]; cbn in *; subst o; [|done].
  by destruct (Strict.not_air b).
Qed.

(** X6: for corners that can be printed and whatever the collaborator
    does (raising anywhere, answering differently from call to call),
    [scan_area] returns a mapping unless the library raises something that
    is not an [Exception], which [scan_area] lets through; so it returns
    whenever the library raises instances of [Exception] only.  Every key
    of the mapping is a voxel of the box, no value is one of the six air
    spellings, and there are at most as many entries as the box has
    voxels. *)
Theorem scan_area_returns_or_propagates x1 y1 z1 x2 y2 z2 s :
  Strict.format_ints E [x1; y1; z1; x2; y2; z2] = Strict.Returns tt ->
  match (Strict.scan_area E x1 y1 z1 x2 y2 z2 s).1 with
  | Strict.Returns blocks =>
      (forall v id,
          blocks !! v = Some id ->
          in_box x1 y1 z1 x2 y2 z2 v /\
          forall name, id = Strict.PyStr name -> name ∉ air_blocks) /\
      Z.of_nat (size blocks)
        <= (Z.abs (x1 - x2) + 1) * (Z.abs (y1 - y2) + 1) * (Z.abs (z1 - z2) + 1)
  | Strict.Raises e =>
      Strict.is_Exception e = false /\ Strict.library_raises E e
  end /\
  (Strict.only_exceptions E ->
   exists blocks, (Strict.scan_area E x1 y1 z1 x2 y2 z2 s).1 = Strict.Returns blocks).
Proof.
  intros Hp.
  destruct (box_voxels_facts x1 y1 z1 x2 y2 z2) as (_ & Hnodup & Hin & Hlen).
  rewrite strict_scan_area_one_loop.
  pose proof (strict_for_each_inv
                (fun blocks : gmap (Z * Z * Z) Strict.pyval =>
                   forall v id, blocks !! v = Some id ->
                     v ∈ box_voxels x1 y1 z1 x2 y2 z2 /\
                     forall name, id = Strict.PyStr name -> name ∉ air_blocks)
                (fun e => Strict.is_Exception e = false /\ Strict.library_raises E e)
                (Strict.scan_body E) (box_voxels x1 y1 z1 x2 y2 z2)) as Hloop.
  specialize (Hloop
    ltac:(intros acc [[x y] z] s0 Hv Hacc; unfold Strict.scan_body, Strict.bind;
          apply Hin in Hv;
          destruct (strict_get_block_outcome x y z s0
                      (format_ints_box _ _ _ _ _ _ _ _ _ Hp Hv))
            as [(b & Hb)|(e & He & Hne & Hlib)];
          destruct (Strict.get_block E x y z s0) as [o s1]; cbn in *; subst o;
          [|done];
          destruct (Strict.not_air b) eqn:Hair; cbn; [|exact Hacc];
          intros v id Hlook;
          destruct (decide ((x, y, z) = v)) as [<-|Hne];
          [ rewrite lookup_insert_eq in Hlook; injection Hlook as <-;
            split; [by apply Hin|];
            intros name ->; cbn in Hair; by apply bool_decide_eq_true in Hair
          | rewrite lookup_insert_ne in Hlook by done; by apply Hacc ])
    ∅ s ltac:(intros v id Hlook; by rewrite lookup_empty in Hlook)).
  split.
  - destruct (Strict.for_each _ _ _ s).1 as [blocks|e]; [|exact Hloop].
    split.
    + intros v id Hlook. destruct (Hloop v id Hlook) as [Hv Hid].
      split; [by apply Hin|done].
    + assert (Hsub : dom blocks ⊆ list_to_set (box_voxels x1 y1 z1 x2 y2 z2)).
      { intros v Hv. apply elem_of_dom in Hv as [id Hlook].
        apply elem_of_list_to_set. by apply (Hloop v id). }
      apply subseteq_size in Hsub.
      rewrite size_dom, size_list_to_set, Hlen in Hsub by done.
      assert (Hpos : 0 < (Z.abs (x1 - x2) + 1) * (Z.abs (y1 - y2) + 1)
                         * (Z.abs (z1 - z2) + 1)) by nia.
      revert Hsub Hpos.
      generalize ((Z.abs (x1 - x2) + 1) * (Z.abs (y1 - y2) + 1)
                  * (Z.abs (z1 - z2) + 1)).
      intros n Hsub Hpos. lia.
  - intros Honly.
    destruct (Strict.for_each _ _ _ s).1 as [blocks|e]; [eauto|].
    destruct Hloop as [He Hlib].
    apply only_exceptions_library in Hlib; [congruence|exact Honly].
Qed.

(** The calls of one lookup in a loop body that then updates the
    accumulator. *)
Lemma strict_lookup_body_call_count {B}
    (k : B -> Z * Z * Z -> Strict.pyval -> B) acc v s :
  let body acc v :=
    let '(x, y, z) := v in
    Strict.bind (Strict.get_block E x y z)
      (fun block => Strict.ret (X := X) (k acc v block)) in
  exists evs, trace (body acc v s).2 = trace s ++ evs /\
              (length evs <= 3)%nat /\
              (forall acc', (body acc v s).1 = Strict.Returns acc' ->
                 (1 <= length evs)%nat).
Proof.
  destruct v as [[x y] z]. cbv zeta. unfold Strict.bind.
  destruct (strict_get_block_effect x y z s) as ((evs & Ht & Hcalls) & _).
  exists evs.
  destruct (Strict.get_block E x y z s) as [[b|e] s1] eqn:Hget; cbn [fst snd] in *;
    (split; [exact Ht|]);
    (destruct Hcalls as [Hcalls|(-> & Hrun & _)];
     [pose proof (lookup_calls_length _ _ _ _ _ _ _ Hcalls); split; intros; lia|]).
  - discriminate.
  - split; [cbn; lia|]. intros acc' Hret. discriminate.
Qed.

(** X8: the batch methods make at most three library calls per coordinate
    they look up, and at least one per coordinate when they return:
    [get_multiple_blocks] at most [3n] for a list of [n] coordinates, and
    at least [n] when it returns (none at all for an empty list, which
    gives an empty mapping and leaves the reader as it was); [scan_area]
    at most [3n] for a box of [n] voxels, and at least [n] when it
    returns.  [get_multiple_blocks] returns when the coordinates can be
    printed and the library raises instances of [Exception] only. *)
Theorem batch_call_bounds :
  (forall coordinates s,
      exists evs,
        trace (Strict.get_multiple_blocks E coordinates s).2 = trace s ++ evs /\
        (length evs <= 3 * length coordinates)%nat /\
        (forall results,
            (Strict.get_multiple_blocks E coordinates s).1 = Strict.Returns results ->
            (length coordinates <= length evs)%nat)) /\
  (forall s, Strict.get_multiple_blocks E [] s = (Strict.Returns ∅, s)) /\
  (forall coordinates s,
      Forall (fun '(x, y, z) => Strict.format_ints E [x; y; z] = Strict.Returns tt)
             coordinates ->
      Strict.only_exceptions E ->
      exists results,
        (Strict.get_multiple_blocks E coordinates s).1 = Strict.Returns results) /\
  (forall x1 y1 z1 x2 y2 z2 s,
      let n := (Z.abs (x1 - x2) + 1) * (Z.abs (y1 - y2) + 1) * (Z.abs (z1 - z2) + 1) in
      exists evs,
        trace (Strict.scan_area E x1 y1 z1 x2 y2 z2 s).2 = trace s ++ evs /\
        Z.of_nat (length evs) <= 3 * n /\
        (forall blocks,
            (Strict.scan_area E x1 y1 z1 x2 y2 z2 s).1 = Strict.Returns blocks ->
            n <= Z.of_nat (length evs))).
Proof.
  split; [|split; [done|split]].
  - intros coordinates s.
    change (Strict.get_multiple_blocks E coordinates s)
      with (Strict.for_each coordinates ∅ (Strict.batch_body E) s).
    destruct (strict_for_each_call_count 1 3 (Strict.batch_body E) coordinates)
      with (acc := (∅ : gmap (Z * Z * Z) Strict.pyval)) (s := s)
      as (evs & Ht & Hhi & Hlo).
    { intros acc [[x y] z] s0.
      apply (strict_lookup_body_call_count (fun acc v b => <[v := b]> acc)
               acc (x, y, z) s0). }
    exists evs. split; [exact Ht|]. split; [exact Hhi|].
    intros results Hret. specialize (Hlo results Hret). lia.
  - intros coordinates s Hall Honly.
    change (Strict.get_multiple_blocks E coordinates s)
      with (Strict.for_each coordinates ∅ (Strict.batch_body E) s).
    pose proof (strict_for_each_inv
                  (fun _ : gmap (Z * Z * Z) Strict.pyval => True)
                  (fun _ => False)
                  (Strict.batch_body E) coordinates) as Hloop.
    specialize (Hloop
      ltac:(intros acc [[x y] z] s0 Hv _; unfold Strict.batch_body, Strict.bind;
            rewrite Forall_forall in Hall; specialize (Hall _ Hv); cbn in Hall;
            destruct (strict_get_block_outcome x y z s0 Hall)
              as [(b & Hb)|(e & He & Hne & Hlib)];
            [ destruct (Strict.get_block E x y z s0) as [o s1]; cbn in *; by subst o
            | apply only_exceptions_library in Hlib; [congruence|exact Honly] ])
      ∅ s I).
    destruct (Strict.for_each _ _ _ s).1 as [results|e]; [eauto|done].
  - intros x1 y1 z1 x2 y2 z2 s n. rewrite strict_scan_area_one_loop.
    destruct (strict_for_each_call_count 1 3 (Strict.scan_body E)
                (box_voxels x1 y1 z1 x2 y2 z2))
      with (acc := (∅ : gmap (Z * Z * Z) Strict.pyval)) (s := s)
      as (evs & Ht & Hhi & Hlo).
    { intros acc [[x y] z] s0.
      pose proof (strict_lookup_body_call_count
                    (fun acc v b => if Strict.not_air b then <[v := b]> acc else acc)
                    acc (x, y, z) s0) as Hcount.
      cbv zeta in Hcount. unfold Strict.scan_body.
      replace (Strict.bind (Strict.get_block E x y z)
                 (fun block => if Strict.not_air block
                               then Strict.ret (<[(x, y, z) := block]> acc)
                               else Strict.ret acc) s0)
        with (Strict.bind (Strict.get_block E x y z)
                (fun block => Strict.ret (X := X)
                   (if Strict.not_air block
                    then <[(x, y, z) := block]> acc else acc)) s0);
        [exact Hcount|].
      unfold Strict.bind. destruct (Strict.get_block E x y z s0) as [[b|e] s1]; [|done].
      by destruct (Strict.not_air b). }
    exists evs. split; [exact Ht|].
    destruct (box_voxels_facts x1 y1 z1 x2 y2 z2) as (_ & _ & _ & Hlen).
    rewrite Hlen in Hhi, Hlo. subst n.
    assert (Hpos : 0 < (Z.abs (x1 - x2) + 1) * (Z.abs (y1 - y2) + 1)
                       * (Z.abs (z1 - z2) + 1)) by nia.
    revert Hhi Hlo Hpos.
    generalize ((Z.abs (x1 - x2) + 1) * (Z.abs (y1 - y2) + 1) * (Z.abs (z1 - z2) + 1)).
    intros n Hhi Hlo Hpos. split; [lia|].
    intros blocks Hret. specialize (Hlo blocks Hret). lia.
Qed.

(** *** The dictionary in insertion order, and what main writes *)

Lemma strict_items_body_eq items x y z s b s1 :
  Strict.get_block E x y z s = (Strict.Returns b, s1) ->
  Strict.items_body E items (x, y, z) s =
    (Strict.Returns (if Strict.not_air b
                     then dict_set items (x, y, z) b else items), s1).
Proof.
  intros H. unfold Strict.items_body, Strict.bind. rewrite H.
  by destruct (Strict.not_air b).
Qed.

Lemma strict_scan_body_eq (blocks : gmap (Z * Z * Z) Strict.pyval) x y z s b s1 :
  Strict.get_block E x y z s = (Strict.Returns b, s1) ->
  Strict.scan_body E blocks (x, y, z) s =
    (Strict.Returns (if Strict.not_air b
                     then <[(x, y, z) := b]> blocks else blocks), s1).
Proof.
  intros H. unfold Strict.scan_body, Strict.bind. rewrite H.
  by destruct (Strict.not_air b).
Qed.

(** The two loops side by side: same lookups, same final state, same
    exception if any; the ordered dictionary grows at its end by the
    voxels kept, in order. *)
Lemma strict_items_loop (l : list (Z * Z * Z)) :
  forall (items : list ((Z * Z * Z) * Strict.pyval)) s,
    NoDup (items.*1 ++ l) ->
    (Strict.for_each l items (Strict.items_body E) s).2
      = (Strict.for_each l (list_to_map items) (Strict.scan_body E) s).2 /\
    match (Strict.for_each l items (Strict.items_body E) s).1 with
    | Strict.Returns out =>
        exists new,
          out = items ++ new /\
          (Strict.for_each l (list_to_map items) (Strict.scan_body E) s).1
            = Strict.Returns (list_to_map (items ++ new)) /\
          new.*1 `sublist_of` l
    | Strict.Raises e =>
        (Strict.for_each l (list_to_map items) (Strict.scan_body E) s).1
          = Strict.Raises e
    end.
Proof.
  induction l as [|[[x y] z] l IH]; intros items s Hnodup.
  - split; [done|]. exists []. by rewrite app_nil_r.
  - rewrite !strict_for_each_cons.
    destruct (Strict.get_block E x y z s) as [[b|e] s1] eqn:Hget.
    2:{ unfold Strict.items_body, Strict.scan_body, Strict.bind. by rewrite Hget. }
    rewrite (strict_items_body_eq _ _ _ _ _ _ _ Hget),
      (strict_scan_body_eq _ _ _ _ _ _ _ Hget).
    assert (Hfresh : (x, y, z) ∉ items.*1).
    { apply NoDup_app in Hnodup as (_ & Hdisj & _). intros Hin.
      apply (Hdisj _ Hin). by left. }
    destruct (Strict.not_air b).
    + rewrite dict_set_fresh by done.
      rewrite <- (list_to_map_snoc items (x, y, z) b) by done.
      destruct (IH (items ++ [((x, y, z), b)]) s1) as [Hstate Hres].
      { rewrite fmap_app, <- app_assoc. done. }
      split; [exact Hstate|].
      destruct (Strict.for_each l (items ++ [((x, y, z), b)])
                  (Strict.items_body E) s1).1 as [out|e]; [|exact Hres].
      destruct Hres as (new & -> & Hmap & Hsub).
      exists (((x, y, z), b) :: new). rewrite <- app_assoc in Hmap |- *.
      split; [done|]. split; [exact Hmap|]. by constructor.
    + destruct (IH items s1) as [Hstate Hres].
      { apply NoDup_app in Hnodup as (Hn1 & Hdisj & Hn2).
        apply NoDup_app. split; [done|]. split.
        - intros v Hv Hin. apply (Hdisj v Hv). by right.
        - by apply NoDup_cons in Hn2 as [_ ?]. }
      split; [exact Hstate|].
      destruct (Strict.for_each l items (Strict.items_body E) s1).1 as [out|e];
        [|exact Hres].
      destruct Hres as (new & -> & Hmap & Hsub).
      exists new. split; [done|]. split; [exact Hmap|]. by constructor.
Qed.

(** With printable scaled coordinates, line 206 gives the line of the
    restricted model. *)
Lemma strict_output_line_ok x y z :
  Strict.format_ints E [x * 48; y * 48; z * 48] = Strict.Returns tt ->
  Strict.output_line E (x, y, z) = Strict.Returns (output_line (x, y, z)).
Proof.
  rewrite format_ints_ok. intros Hall.
  repeat (apply Forall_cons_1 in Hall as [? Hall]).
  unfold Strict.output_line, output_line, Strict.str_of_int. cbv zeta.
  by repeat match goal with H : Strict.too_long _ _ = false |- _ => rewrite H; clear H end.
Qed.

Lemma strict_write_lines_ok (items : list ((Z * Z * Z) * Strict.pyval)) text :
  Forall (fun '(x, y, z) =>
            Strict.format_ints E [x * 48; y * 48; z * 48] = Strict.Returns tt)
         items.*1 ->
  Strict.write_lines E items text =
    (text +:+ foldr (fun v rest => output_line v +:+ rest) "" items.*1,
     Strict.Returns tt).
Proof.
  revert text. induction items as [|[[[x y] z] b] items IH]; intros text Hall.
  - cbn. by rewrite str_app_nil_r.
  - cbn [fmap list_fmap fst foldr] in *.
    apply Forall_cons_1 in Hall as [Hv Hall].
    cbn [Strict.write_lines]. rewrite (strict_output_line_ok x y z Hv).
    rewrite IH by exact Hall. by rewrite str_app_assoc.
Qed.

Lemma newlines_lines (vs : list (Z * Z * Z)) :
  newlines (foldr (fun v rest => output_line v +:+ rest) "" vs) = length vs.
Proof.
  induction vs as [|v vs IH]; [done|]. cbn.
  by rewrite newlines_app, newlines_output_line, IH.
Qed.

(** X13: the scan of [main], after the command is parsed into corners
    that can be printed, also when scaled by 48.  It ends in the state
    [scan_area] leaves.  When [scan_area] raises (something of the library
    that is not an [Exception]) no file is opened and the exception goes
    on; so it does not raise when the library raises instances of
    [Exception] only.  When [scan_area] returns, the step does not raise;
    no file is written exactly when the mapping is empty; otherwise the
    text written is the concatenation of one line per entry of the
    mapping, in the order the voxels were visited (ascending by x, then y,
    then z), so the file has as many newline characters as the mapping has
    entries. *)
Theorem main_scan_text x1 y1 z1 x2 y2 z2 s :
  Strict.format_ints E [x1; y1; z1; x2; y2; z2] = Strict.Returns tt ->
  Strict.format_ints E [x1 * 48; y1 * 48; z1 * 48; x2 * 48; y2 * 48; z2 * 48]
    = Strict.Returns tt ->
  let scan := Strict.scan_area E x1 y1 z1 x2 y2 z2 s in
  let file := (Strict.main_scan E x1 y1 z1 x2 y2 z2 s).1.1 in
  let outcome := (Strict.main_scan E x1 y1 z1 x2 y2 z2 s).1.2 in
  (Strict.main_scan E x1 y1 z1 x2 y2 z2 s).2 = scan.2 /\
  match scan.1 with
  | Strict.Raises e =>
      file = None /\ outcome = Strict.Raises e /\
      Strict.is_Exception e = false /\ Strict.library_raises E e
  | Strict.Returns blocks =>
      outcome = Strict.Returns tt /\
      match file with
      | None => blocks = ∅
      | Some text =>
          blocks <> ∅ /\
          exists vs,
            text = foldr (fun v rest => output_line v +:+ rest) "" vs /\
            StronglySorted voxel_lt vs /\
            (forall v, v ∈ vs <-> is_Some (blocks !! v)) /\
            newlines text = size blocks
      end
  end /\
  (Strict.only_exceptions E -> outcome = Strict.Returns tt).
Proof.
  intros Hp Hscaled scan file outcome. subst scan file outcome.
  destruct (box_voxels_facts x1 y1 z1 x2 y2 z2) as (Hsorted & Hnodup & Hin & _).
  destruct (strict_items_loop (box_voxels x1 y1 z1 x2 y2 z2) [] s) as [Hstate Hres];
    [done|].
  change (list_to_map [] : gmap (Z * Z * Z) Strict.pyval)
    with (∅ : gmap (Z * Z * Z) Strict.pyval) in Hstate, Hres.
  pose proof (scan_area_outcome_aux x1 y1 z1 x2 y2 z2 s Hp) as Hscan.
  unfold Strict.main_scan. rewrite Hp.
  rewrite strict_scan_area_items_one_loop, strict_scan_area_one_loop in *.
  destruct (Strict.for_each (box_voxels x1 y1 z1 x2 y2 z2) []
              (Strict.items_body E) s) as [[items|e] s'] eqn:Hitems;
    cbn [fst snd] in Hstate, Hres.
  - destruct Hres as (new & -> & Hmap & Hsub). cbn [app] in *.
    rewrite Hmap in Hscan |- *. rename new into items.
    assert (Hn : NoDup items.*1) by (eapply sublist_NoDup; eassumption).
    assert (Hlen : length items = size (list_to_map items : gmap _ Strict.pyval))
      by (by rewrite map_size_list_to_map).
    assert (Hlines : Forall (fun '(x, y, z) =>
              Strict.format_ints E [x * 48; y * 48; z * 48] = Strict.Returns tt)
              items.*1).
    { apply Forall_forall. intros [[x y] z] Hv.
      assert (Hbox : in_box x1 y1 z1 x2 y2 z2 (x, y, z)).
      { apply Hin. eapply elem_of_sublist; eassumption. }
      apply (format_ints_box _ _ _ _ _ _ _ _ _ Hscaled).
      destruct Hbox as (Hx & Hy & Hz). unfold in_box. lia. }
    destruct items as [|[v b] items].
    + cbn. split; [exact Hstate|]. split; [done|]. done.
    + rewrite (strict_write_lines_ok _ "" Hlines). cbn [fst snd].
      split; [exact Hstate|]. split; [|done].
      split; [done|]. split.
      { intros Hempty. apply (f_equal size) in Hempty.
        rewrite <- Hlen, map_size_empty in Hempty. discriminate. }
      exists ((v, b) :: items).*1. split; [done|].
      split; [by eapply sublist_StronglySorted|]. split.
      * intros v'. rewrite <- elem_of_dom, dom_list_to_map_L, elem_of_list_to_set.
        done.
      * change (newlines (foldr (fun v rest => output_line v +:+ rest) ""
                            ((v, b) :: items).*1)
                = size (list_to_map ((v, b) :: items) : gmap _ Strict.pyval)).
        by rewrite newlines_lines, length_fmap, Hlen.
  - rewrite Hres in Hscan |- *. cbn [fst snd].
    split; [exact Hstate|]. destruct Hscan as [He Hlib].
    split; [done|].
    intros Honly. apply only_exceptions_library in Hlib; [congruence|exact Honly].
Qed.

End StrictFacts.
